(** * rent_market_analysis: the listing scraper of [src/data/scraping.py]

    A shallow embedding of the scraper and the properties of its
    specification.  The development follows the source file top to bottom:

    - Python values: strings, [str.strip], [str.join], exceptions;
    - the parsed page (the part of BeautifulSoup the scraper calls);
    - [get_listings_page], [extract_label_value_pairs],
      [get_listing_details];
    - [scrape_apartments]: URL collection, de-duplication, the URL file, the
      batches and the chunks;
    - the worker threads of [process_urls] as an interleaving machine over
      the two shared counters and the output directory.

    Python [int]s that count things are modelled by [nat]; a Python [str] is
    modelled by [string], one character per code point below 256; a [dict]
    by a [gmap], a [set] by a [gset]. *)

From stdpp Require Import gmap strings list fin_maps pretty.
From Stdlib Require Import Ascii.

Set Warnings "-register-all".

Local Open Scope string_scope.
Local Open Scope nat_scope.

(** ** Python values *)

Module Py.

(** The exceptions the scraper can meet.  [OtherError] stands for any other
    subclass of [Exception] raised by the HTTP transport or the parser. *)
Inductive exn : Type :=
| HTTPError
| ConnectionError
| ParserError
| KeyError
| StopIteration
| ZeroDivisionError
| ValueError
| OtherError (msg : string).

(** A computation that returns a value or raises. *)
Inductive result (A : Type) : Type :=
| Ok (a : A)
| Raise (e : exn).
Arguments Ok {A} a.
Arguments Raise {A} e.

Definition bind {A B} (m : result A) (k : A → result B) : result B :=
  match m with
  | Ok a => k a
  | Raise e => Raise e
  end.

(** A list comprehension whose element expression may raise: the elements
    are computed left to right and the first exception ends the
    comprehension. *)
Fixpoint comprehension {A B} (f : A → result B) (l : list A) : result (list B) :=
  match l with
  | [] => Ok []
  | x :: l' =>
      bind (f x) (λ y, bind (comprehension f l') (λ ys, Ok (y :: ys)))
  end.

(** [str.isspace] on a code point below 256: the characters that
    [str.strip()] removes. *)
Definition isspace (c : ascii) : bool :=
  let n := nat_of_ascii c in
  (((9 <=? n) && (n <=? 13)) || ((28 <=? n) && (n <=? 32))
   || (n =? 133) || (n =? 160))%nat.

Fixpoint lstrip (s : string) : string :=
  match s with
  | EmptyString => EmptyString
  | String c s' => if isspace c then lstrip s' else s
  end.

Fixpoint rstrip (s : string) : string :=
  match s with
  | EmptyString => EmptyString
  | String c s' =>
      match rstrip s' with
      | EmptyString => if isspace c then EmptyString else String c EmptyString
      | r => String c r
      end
  end.

(** [s.strip()] *)
Definition strip (s : string) : string := rstrip (lstrip s).

(** [sep.join(l)] *)
Fixpoint join (sep : string) (l : list string) : string :=
  match l with
  | [] => ""
  | [x] => x
  | x :: l' => x ++ sep ++ join sep l'
  end.

End Py.

Import Py.

Notation "'let*' x ':=' m 'in' k" := (bind m (λ x, k))
  (at level 10, x name, m at level 100, k at level 200).

(** ** The parsed page

    The scraper sees a page only through BeautifulSoup.  A page is a tree of
    text nodes and elements; an element has a tag name, the tokens of its
    [class] attribute (BeautifulSoup keeps that attribute as a list), its
    other attributes and its children in document order. *)

Module Soup.

Inductive node : Type :=
| NText (s : string)
| NElem (tag : string) (classes : list string)
        (attrs : gmap string string) (children : list node).

Definition name (n : node) : string :=
  match n with NText _ => "" | NElem t _ _ _ => t end.

Definition class_list (n : node) : list string :=
  match n with NText _ => [] | NElem _ c _ _ => c end.

Definition attributes (n : node) : gmap string string :=
  match n with NText _ => ∅ | NElem _ _ a _ => a end.

Definition contents (n : node) : list node :=
  match n with NText _ => [] | NElem _ _ _ cs => cs end.

(** The elements of a subtree in document order, its root first. *)
Fixpoint subtree (n : node) : list node :=
  match n with
  | NText _ => []
  | NElem _ _ _ cs => n :: flat_map subtree cs
  end.

(** The elements strictly below [n]: what [n.find_all] and [n.find]
    search. *)
Definition descendants (n : node) : list node :=
  flat_map subtree (contents n).

(** [n.text]: the text nodes below [n], concatenated. *)
Fixpoint text (n : node) : string :=
  match n with
  | NText s => s
  | NElem _ _ _ cs => fold_right (λ c acc, text c ++ acc) "" cs
  end.

(** [class_=sel]: one token of the class attribute is [sel], or the whole
    attribute, its tokens joined by single spaces, is [sel]. *)
Definition has_class (sel : string) (n : node) : bool :=
  bool_decide (sel ∈ class_list n) || bool_decide (join " " (class_list n) = sel).

(** [n.find_all(tag)] *)
Definition find_all_tag (tag : string) (n : node) : list node :=
  filter (λ e, name e = tag) (descendants n).

(** [n.find_all(tag, class_=sel)] *)
Definition find_all_tag_class (tag sel : string) (n : node) : list node :=
  filter (λ e, name e = tag ∧ has_class sel e = true) (descendants n).

(** [n.find_all(tag, {key: value})] *)
Definition find_all_tag_attr (tag key value : string) (n : node) : list node :=
  filter (λ e, name e = tag ∧ attributes e !! key = Some value) (descendants n).

(** [n.find(class_=sel)]: the first match in document order, or [None]. *)
Definition find_class (sel : string) (n : node) : option node :=
  head (filter (λ e, has_class sel e = true) (descendants n)).

(** [link[key]]: raises [KeyError] when the attribute is missing. *)
Definition getitem (n : node) (key : string) : result string :=
  match attributes n !! key with
  | Some v => Ok v
  | None => Raise KeyError
  end.

End Soup.

Import Soup.

(** ** The outside world

    The HTTP transport and the HTML parser are external: the scraper is
    modelled over any behaviour of [requests.get] and of
    [BeautifulSoup(text, 'html.parser')], each of which returns or raises. *)

Record response : Type := { status_code : nat; response_text : string }.

Record web : Type := {
  requests_get : string → result response;
  html_parser : string → result node
}.

(** [response.raise_for_status()]: client and server error codes raise. *)
Definition raise_for_status (r : response) : result unit :=
  if ((400 <=? status_code r) && (status_code r <? 600))%nat
  then Raise HTTPError else Ok tt.

(** A listing record: field name to text or [None].  The empty dict is the
    record of a failed fetch. *)
Abbreviation details := (gmap string (option string)).

(** ** get_listings_page *)

(** The body of the [try] block, lines 20-26. *)
Definition get_listings_page_try (w : web) (page_url : string) : result (list string) :=
  let* response := requests_get w page_url in
  let* _ := raise_for_status response in
  let* soup := html_parser w (response_text response) in
  let listings := find_all_tag_attr "a" "data-cy" "listing-item-link" soup in
  comprehension
    (λ link, let* href := getitem link "href" in
             Ok ("https://www.otodom.pl/" ++ href))
    listings.

Definition get_listings_page (w : web) (page_url : string) : list string :=
  match get_listings_page_try w page_url with
  | Ok urls => urls
  | Raise _ => []
  end.

(** ** extract_label_value_pairs *)

Definition extract_spans_from_p (p_element : node) : list string :=
  map (λ span, strip (text span)) (find_all_tag_class "span" "css-axw7ok" p_element).

(** One iteration of the loop over the containers, lines 43-55. *)
Definition label_value_step (labels_to_find : list string)
    (results : gmap string string) (container : node) : gmap string string :=
  match find_all_tag "p" container with
  | [p0; p1] =>
      let label := strip (text p0) in
      if bool_decide (label ∈ labels_to_find) then
        let spans := find_all_tag_class "span" "css-axw7ok" p1 in
        let value :=
          match spans with
          | [] => strip (text p1)
          | _ => join "; " (map (λ span, strip (text span)) spans)
          end in
        <[label := value]> results
      else results
  | _ => results
  end.

Definition extract_label_value_pairs (soup : node) (labels_to_find : list string)
    (container_class : string) : gmap string string :=
  let containers := find_all_tag_class "div" container_class soup in
  foldl (label_value_step labels_to_find) ∅ containers.

(** ** get_listing_details *)

(** The body of the [try] block, lines 73-97.  The loops over
    [div_class_mapping.items()] and [label_mapping.items()] run over the
    entries of the dicts; the keys of a dict are distinct, so the order of
    the entries does not change the record. *)
Definition get_listing_details_try (w : web) (listing_url : string)
    (div_class_mapping label_mapping : gmap string string) : result details :=
  let* response := requests_get w listing_url in
  let* _ := raise_for_status response in
  let* soup := html_parser w (response_text response) in
  let details0 : details := {[ "url" := Some listing_url ]} in
  let details1 :=
    foldl (λ (d : details) (item : string * string),
             <[item.1 := (λ element, strip (text element)) <$> find_class item.2 soup]> d)
          details0 (map_to_list div_class_mapping) in
  let label_values :=
    extract_label_value_pairs soup (map_to_list label_mapping).*2
                              "css-t7cajz e15n0fyo1" in
  let details2 :=
    foldl (λ (d : details) (item : string * string),
             <[item.1 := label_values !! item.2]> d)
          details1 (map_to_list label_mapping) in
  Ok details2.

Definition get_listing_details (w : web) (listing_url : string)
    (div_class_mapping label_mapping : gmap string string) : details :=
  match get_listing_details_try w listing_url div_class_mapping label_mapping with
  | Ok d => d
  | Raise _ => ∅
  end.

(** ** scrape_apartments: collecting and persisting the URLs *)

(** Line 113. *)
Definition page_url (base_url : string) (page : nat) : string :=
  if (1 <? page)%nat then base_url ++ "&page=" ++ pretty page else base_url.

(** Lines 107-117: [all_urls] after the loop over [range(1, num_pages + 1)]. *)
Definition collect_urls (w : web) (base_url : string) (num_pages : nat) : list string :=
  flat_map (λ page, get_listings_page w (page_url base_url page)) (seq 1 num_pages).

(** Line 120, [list(set(all_urls))].  The order in which Python lists the
    members of a set is unspecified; [elements] is one such order and no
    statement below depends on which. *)
Definition unique (all_urls : list string) : list string :=
  elements (list_to_set all_urls : gset string).

Definition LF : ascii := "010"%char.
Definition CR : ascii := "013"%char.
Definition newline : string := String LF EmptyString.

(** Lines 132-134: the text written to [listing_urls.txt]. *)
Definition urls_file_text (unique_urls : list string) : string :=
  fold_right (λ url acc, url ++ newline ++ acc) "" unique_urls.

(** A file opened in text mode is read with universal newlines: a carriage
    return, alone or followed by a line feed, is read as one line feed.  (A
    platform that writes another line separator for the line feed of line
    134 reads it back as one line feed, so the text read is the same.) *)
Fixpoint universal_newlines (s : string) : string :=
  match s with
  | EmptyString => EmptyString
  | String c s' =>
      if Ascii.eqb c CR then
        match s' with
        | String c' s'' =>
            if Ascii.eqb c' LF then universal_newlines s'
            else String LF (universal_newlines s')
        | EmptyString => String LF EmptyString
        end
      else String c (universal_newlines s')
  end.

(** The lines a file iterator yields, each with its line feed; the last
    line may lack one. *)
Fixpoint split_lines (s : string) : list string :=
  match s with
  | EmptyString => []
  | String c s' =>
      if Ascii.eqb c LF then String c EmptyString :: split_lines s'
      else match split_lines s' with
           | [] => [String c EmptyString]
           | l :: ls => String c l :: ls
           end
  end.

(** [open(urls_file, 'r')]: the iterator over the lines of the file. *)
Definition open_lines (file_text : string) : list string :=
  split_lines (universal_newlines file_text).

(** [next(f)] on the lines not yet read. *)
Definition next (f : list string) : result (string * list string) :=
  match f with
  | [] => Raise StopIteration
  | l :: f' => Ok (l, f')
  end.

(** Lines 147-148: [for _ in range(n): next(f)]. *)
Fixpoint skip_lines (n : nat) (f : list string) : result (list string) :=
  match n with
  | 0 => Ok f
  | S n' => let* lf := next f in skip_lines n' lf.2
  end.

(** Line 149: [[next(f).strip() for _ in range(n)]]. *)
Fixpoint take_lines (n : nat) (f : list string) : result (list string) :=
  match n with
  | 0 => Ok []
  | S n' =>
      let* lf := next f in
      let* rest := take_lines n' lf.2 in
      Ok (strip lf.1 :: rest)
  end.

(** Lines 145-149: the file is opened again for every batch. *)
Definition read_batch (file_text : string) (urls_processed batch_size total_urls : nat)
    : result (list string) :=
  let f := open_lines file_text in
  let* f' := skip_lines urls_processed f in
  take_lines (batch_size `min` (total_urls - urls_processed)) f'.

(** ** scrape_apartments: batches and chunks *)

(** [math.ceil(a / b)] for [b > 0].  The source divides in floating point;
    the quotient is taken exactly here. *)
Definition ceil_div (a b : nat) : nat :=
  (a / b + (if (a mod b =? 0)%nat then 0 else 1))%nat.

(** Line 138 (and line 154): the division raises when the divisor is 0. *)
Definition math_ceil_div (a b : nat) : result nat :=
  if (b =? 0)%nat then Raise ZeroDivisionError else Ok (ceil_div a b).

(** [range(0, stop, step)]: raises when [step] is 0. *)
Definition range_step (stop step : nat) : result (list nat) :=
  if (step =? 0)%nat then Raise ValueError
  else Ok (map (λ k, k * step)%nat (seq 0 (ceil_div stop step))).

(** [l[i:j]] *)
Definition slice {A} (l : list A) (i j : nat) : list A :=
  take (j - i) (drop i l).

(** Lines 154-155. *)
Definition url_chunks (batch_urls : list string) (num_workers : nat)
    : result (list (list string)) :=
  let* urls_per_worker := math_ceil_div (length batch_urls) num_workers in
  let* starts := range_step (length batch_urls) urls_per_worker in
  Ok (map (λ i, slice batch_urls i (i + urls_per_worker)) starts).

(** Lines 137-150 seen from the URL file alone: the batches read by the
    loop [for batch_num in range(total_batches)], with [urls_processed]
    advanced by the length of each batch. *)
Fixpoint read_batches (file_text : string) (batch_size total_urls : nat)
    (batches_left urls_processed : nat) : result (list (list string)) :=
  match batches_left with
  | 0 => Ok []
  | S k =>
      let* batch_urls := read_batch file_text urls_processed batch_size total_urls in
      let* rest := read_batches file_text batch_size total_urls k
                                (urls_processed + length batch_urls) in
      Ok (batch_urls :: rest)
  end.

Definition scheduler_batches (file_text : string) (total_urls num_workers : nat)
    : result (list (list string)) :=
  let batch_size := (num_workers * 1000)%nat in
  let* total_batches := math_ceil_div total_urls batch_size in
  read_batches file_text batch_size total_urls total_batches 0.

(** ** scrape_apartments: the worker threads

    The loop over the batches and the threads running [process_urls] are an
    interleaving machine.  The main thread starts a batch; each worker then
    advances on its own, one event at a time, in any order the scheduler of
    the threads picks; the [with ThreadPoolExecutor] block ends, and the
    next batch may start, once every worker has returned.  The increment of
    [listings_scraped] happens under [counter_lock] and is one event.

    The save of lines 178-182 is one event too, though the source takes no
    lock there and [to_csv] opens, writes and closes the file: what a file
    holds while it is written, or after two workers wrote one name at the
    same time, lies outside this machine.  The statements about
    [output_dir] speak of which files exist and of the rows a worker hands
    to [to_csv]. *)

Module Scheduler.

(** Where a worker stands in [process_urls]. *)
Inductive pc : Type :=
| AtFetch   (** line 163: about to take the next URL, or to leave the loop *)
| AtCount   (** line 167: a record was appended, the counter is not yet incremented *)
| Returned. (** the call has returned *)

Record worker : Type := {
  url_chunk : list string;          (** the argument of [process_urls] *)
  pending : list string;            (** the URLs the [for] loop has not reached *)
  scraped_listings : list details;
  at_pc : pc
}.

(** What [scrape_apartments] holds fixed once the URL file is written. *)
Record config : Type := {
  the_web : web;
  div_class_mapping : gmap string string;
  label_mapping : gmap string string;
  num_workers : nat;
  urls_file : string;               (** the text of [listing_urls.txt] *)
  total_urls : nat
}.

(** [batch_no] is the number of batches started: [batch_num + 1] inside the
    loop.  [workers] lists the workers of the run in the order they were
    submitted; those of earlier batches have returned.  [output_dir] maps
    the name of each CSV file to the rows of the last [to_csv] call on that
    name. *)
Record state : Type := {
  urls_processed : nat;
  listings_scraped : nat;
  batch_no : nat;
  workers : list worker;
  output_dir : gmap string (list details)
}.

Inductive event : Type :=
| NextBatch                          (** main thread, lines 143-155 and 185-186 *)
| Fetch (i : nat)                    (** worker [i], lines 163-166 *)
| Count (i : nat)                    (** worker [i], lines 167-168 *)
| Save (i : nat) (timestamp : string). (** worker [i], lines 178-182 *)

Definition batch_size (cfg : config) : nat := (num_workers cfg * 1000)%nat.

Definition total_batches (cfg : config) : result nat :=
  math_ceil_div (total_urls cfg) (batch_size cfg).

Definition init : state :=
  {| urls_processed := 0; listings_scraped := 0; batch_no := 0;
     workers := []; output_dir := ∅ |}.

Definition spawn (chunk : list string) : worker :=
  {| url_chunk := chunk; pending := chunk; scraped_listings := []; at_pc := AtFetch |}.

Definition has_returned (wk : worker) : bool :=
  match at_pc wk with Returned => true | _ => false end.

Definition set_worker (s : state) (i : nat) (wk : worker) : state :=
  {| urls_processed := urls_processed s; listings_scraped := listings_scraped s;
     batch_no := batch_no s; workers := <[i := wk]> (workers s);
     output_dir := output_dir s |}.

(** Line 181. *)
Definition output_file (batch_no : nat) (worker_timestamp : string) : string :=
  "apartments_batch_" ++ pretty batch_no ++ "_" ++ worker_timestamp ++ ".csv".

(** Lines 164-166: one URL of the chunk. *)
Definition fetch_one (cfg : config) (wk : worker) : option worker :=
  match at_pc wk, pending wk with
  | AtFetch, url :: rest =>
      let d := get_listing_details (the_web cfg) url
                 (div_class_mapping cfg) (label_mapping cfg) in
      if bool_decide (d ≠ ∅) then
        Some {| url_chunk := url_chunk wk; pending := rest;
                scraped_listings := scraped_listings wk ++ [d]; at_pc := AtCount |}
      else
        Some {| url_chunk := url_chunk wk; pending := rest;
                scraped_listings := scraped_listings wk; at_pc := AtFetch |}
  | _, _ => None
  end.

Definition step (cfg : config) (ev : event) (s : state) : option state :=
  match ev with
  | NextBatch =>
      match total_batches cfg with
      | Ok tb =>
          if bool_decide (batch_no s < tb) && forallb has_returned (workers s) then
            match read_batch (urls_file cfg) (urls_processed s)
                             (batch_size cfg) (total_urls cfg) with
            | Ok batch_urls =>
                match url_chunks batch_urls (num_workers cfg) with
                | Ok chunks =>
                    Some {| urls_processed := urls_processed s + length batch_urls;
                            listings_scraped := listings_scraped s;
                            batch_no := S (batch_no s);
                            workers := workers s ++ map spawn chunks;
                            output_dir := output_dir s |}
                | Raise _ => None
                end
            | Raise _ => None
            end
          else None
      | Raise _ => None
      end
  | Fetch i =>
      wk ← workers s !! i;
      wk' ← fetch_one cfg wk;
      Some (set_worker s i wk')
  | Count i =>
      wk ← workers s !! i;
      match at_pc wk with
      | AtCount =>
          let wk' := {| url_chunk := url_chunk wk; pending := pending wk;
                        scraped_listings := scraped_listings wk; at_pc := AtFetch |} in
          Some {| urls_processed := urls_processed s;
                  listings_scraped := S (listings_scraped s);
                  batch_no := batch_no s;
                  workers := <[i := wk']> (workers s);
                  output_dir := output_dir s |}
      | _ => None
      end
  | Save i timestamp =>
      wk ← workers s !! i;
      match at_pc wk, pending wk with
      | AtFetch, [] =>
          let wk' := {| url_chunk := url_chunk wk; pending := [];
                        scraped_listings := scraped_listings wk; at_pc := Returned |} in
          Some {| urls_processed := urls_processed s;
                  listings_scraped := listings_scraped s;
                  batch_no := batch_no s;
                  workers := <[i := wk']> (workers s);
                  output_dir :=
                    match scraped_listings wk with
                    | [] => output_dir s
                    | _ => <[output_file (batch_no s) timestamp := scraped_listings wk]>
                             (output_dir s)
                    end |}
      | _, _ => None
      end
  end.

(** A schedule is a list of events; [run] follows it from a state. *)
Fixpoint run (cfg : config) (evs : list event) (s : state) : option state :=
  match evs with
  | [] => Some s
  | ev :: evs' => s' ← step cfg ev s; run cfg evs' s'
  end.

(** The run is over: every batch was started and every worker returned. *)
Definition finished (cfg : config) (s : state) : Prop :=
  total_batches cfg = Ok (batch_no s) ∧ Forall (λ wk, at_pc wk = Returned) (workers s).

(** The records a worker appends for a chunk: those of the URLs whose fetch
    gave a non-empty record, in order. *)
Definition records_of (cfg : config) (chunk : list string) : list details :=
  filter (λ d, d ≠ ∅)
    (map (λ url, get_listing_details (the_web cfg) url
                   (div_class_mapping cfg) (label_mapping cfg)) chunk).

(** Lines 107-141: the configuration the scheduler starts from. *)
Definition scrape_config (w : web) (base_url : string)
    (div_class_mapping label_mapping : gmap string string)
    (num_pages num_workers : nat) : config :=
  let unique_urls := unique (collect_urls w base_url num_pages) in
  {| the_web := w; div_class_mapping := div_class_mapping;
     label_mapping := label_mapping; num_workers := num_workers;
     urls_file := urls_file_text unique_urls; total_urls := length unique_urls |}.

End Scheduler.

Import Scheduler.

(** ** Notions used to state the properties *)

(** The paragraphs that are children of a container, as opposed to the
    paragraphs anywhere below it that [find_all('p')] returns. *)
Definition child_paragraphs (container : node) : list node :=
  filter (λ e, name e = "p") (contents container).

(** The value read from the second paragraph, lines 48-54. *)
Definition paragraph_value (p1 : node) : string :=
  match find_all_tag_class "span" "css-axw7ok" p1 with
  | [] => strip (text p1)
  | spans => join "; " (map (λ span, strip (text span)) spans)
  end.

(** What one container yields: a label to find and its value, or nothing. *)
Definition yields (labels_to_find : list string) (container : node)
    : option (string * string) :=
  match find_all_tag "p" container with
  | [p0; p1] =>
      if bool_decide (strip (text p0) ∈ labels_to_find)
      then Some (strip (text p0), paragraph_value p1) else None
  | _ => None
  end.

(** A string that holds a line feed or a carriage return. *)
Fixpoint has_line_break (s : string) : bool :=
  match s with
  | EmptyString => false
  | String c s' => Ascii.eqb c LF || Ascii.eqb c CR || has_line_break s'
  end.

(** A URL that is one line of text with no surrounding whitespace. *)
Definition url_line (url : string) : Prop :=
  has_line_break url = false ∧ strip url = url.

(** 1 for a worker that has appended a record and not yet counted it. *)
Definition counting (wk : worker) : nat :=
  match at_pc wk with AtCount => 1 | _ => 0 end.

(** A worker has gone through a prefix of its chunk and holds the records
    of that prefix; it has gone through all of it once it has returned. *)
Definition worker_ok (cfg : config) (wk : worker) : Prop :=
  ∃ done_urls,
    url_chunk wk = (done_urls ++ pending wk)%list
    ∧ scraped_listings wk = records_of cfg done_urls
    ∧ (at_pc wk = Returned → pending wk = []).

(** The invariant of the scheduler. *)
Definition invariant (cfg : config) (s : state) : Prop :=
  listings_scraped s + sum_list_with counting (workers s)
    = sum_list_with (λ wk, length (scraped_listings wk)) (workers s)
  ∧ sum_list_with (λ wk, length (scraped_listings wk) + length (pending wk)) (workers s)
    ≤ urls_processed s
  ∧ urls_processed s ≤ total_urls cfg
  ∧ Forall (worker_ok cfg) (workers s).

(** The scheduler's position in the URL file: [urls_processed] is the
    number of URLs of the batches started so far. *)
Definition position_ok (cfg : config) (s : state) : Prop :=
  batch_no s ≤ ceil_div (total_urls cfg) (batch_size cfg)
  ∧ urls_processed s = (batch_no s * batch_size cfg) `min` total_urls cfg.

(** The number of events a worker still has to take: a fetch and at most
    one count for each pending URL, and the save. *)
Definition worker_steps (wk : worker) : nat :=
  match at_pc wk with
  | AtFetch => 2 * length (pending wk) + 1
  | AtCount => 2 * length (pending wk) + 2
  | Returned => 0
  end.

(** A bound on the number of events left in a run. *)
Definition steps_left (cfg : config) (s : state) : nat :=
  sum_list_with worker_steps (workers s)
  + (ceil_div (total_urls cfg) (batch_size cfg) - batch_no s)
    * (2 * batch_size cfg + num_workers cfg + 1).

(** 1 for a worker whose call of [process_urls] has not returned. *)
Definition running (wk : worker) : nat :=
  if has_returned wk then 0 else 1.

(** 1 for a worker that has returned holding at least one record, that is,
    after writing a CSV file. *)
Definition saved (wk : worker) : nat :=
  match at_pc wk, scraped_listings wk with
  | Returned, _ :: _ => 1
  | _, _ => 0
  end.

(** Lines 195-200 and the field names of lines 203-219.  The labels of
    [LABEL_MAPPING] hold characters outside the strings modelled here; the
    statements about the shipped mappings hold for every choice of labels. *)
Definition DIV_CLASS_MAPPING : gmap string string :=
  {[ "title" := "css-wqvm7k ef3kcx01";
     "price" := "css-1o51x5a e1k1vyr21";
     "address" := "css-1jjm9oe e42rcgs1";
     "m2" := "css-1ftqasz" ]}.

Definition LABEL_FIELDS : gset string :=
  {[ "heating"; "floor"; "finished_cond"; "available_since"; "admin_rent";
     "deposit"; "type_of_lister"; "bd_yr_of_build"; "bd_elevator"; "bd_type";
     "bd_material"; "bd_windows_type"; "bd_energy_cert"; "bd_security";
     "additional_info" ]}.

(** ** Fixtures: small pages and a small site *)

Module Fixtures.

Definition document (cs : list node) : node := NElem "[document]" [] ∅ cs.
Definition p (s : string) : node := NElem "p" [] ∅ [NText s].
Definition value_span (s : string) : node := NElem "span" ["css-axw7ok"] ∅ [NText s].
Definition container (cs : list node) : node :=
  NElem "div" ["css-t7cajz"; "e15n0fyo1"] ∅ cs.
Definition listing_link (href : string) : node :=
  NElem "a" [] {[ "data-cy" := "listing-item-link"; "href" := href ]} [].

(** A search page with two listings, and a listing page with a price, a
    heating block of two value spans and two blocks with the label
    [Floor:]. *)
Definition search_page : node :=
  document [listing_link "x"; listing_link "y"].

Definition price_box : node :=
  NElem "div" ["css-1o51x5a"; "e1k1vyr21"] ∅ [NText " 2500 zl "].
Definition heating_values : node :=
  NElem "p" [] ∅ [value_span "Gas"; value_span " Electric"].
Definition heating_block : node := container [p "Heating:"; heating_values].
Definition floor_block_3 : node := container [p "Floor:"; p " 3 "].
Definition floor_block_4 : node := container [p "Floor:"; p "4"].
Definition lift_block : node := container [p "Lift:"].

Definition listing_page : node :=
  document [price_box; heating_block; floor_block_3; floor_block_4; lift_block].

Definition container_class : string := "css-t7cajz e15n0fyo1".

(** A site that serves [search_page] at the URL [search], [listing_page]
    everywhere else, and answers 404 for the listing [y]. *)
Definition site : web :=
  {| requests_get := λ url,
       if bool_decide (url = "https://www.otodom.pl/y")
       then Ok {| status_code := 404; response_text := "" |}
       else Ok {| status_code := 200; response_text := url |};
     html_parser := λ text,
       if bool_decide (text = "search") then Ok search_page else Ok listing_page |}.

(** A site on which every request works. *)
Definition good_site : web :=
  {| requests_get := λ url, Ok {| status_code := 200; response_text := url |};
     html_parser := λ text,
       if bool_decide (text = "search") then Ok search_page else Ok listing_page |}.

(** A block with two child paragraphs and a third paragraph further down. *)
Definition nested_block : node :=
  container [p "Heating:"; p "Gas"; NElem "div" [] ∅ [p "since 2020"]].

(** A search page on which the second listing anchor has no [href]. *)
Definition broken_search_page : node :=
  document [listing_link "x";
            NElem "a" [] {[ "data-cy" := "listing-item-link" ]} []].

Definition broken_site : web :=
  {| requests_get := λ url, Ok {| status_code := 200; response_text := url |};
     html_parser := λ _, Ok broken_search_page |}.

(** A site that cannot be reached. *)
Definition dead_site : web :=
  {| requests_get := λ _, Raise ConnectionError;
     html_parser := λ _, Raise ParserError |}.

(** A run over one search page and two workers on [site]: the batch has the
    two listings, one per worker, and the listing [y] fails. *)
Definition small_run : config := scrape_config site "search" ∅ ∅ 1 2.

Definition small_schedule : list event :=
  [NextBatch; Fetch 1; Fetch 0; Count 1;
   Save 0 "20250101_120000"; Save 1 "20250101_120001"].

(** The same run on [good_site], where both listings are scraped and both
    workers read the same second off the clock when they save. *)
Definition good_run : config := scrape_config good_site "search" ∅ ∅ 1 2.

Definition same_second_schedule : list event :=
  [NextBatch; Fetch 0; Fetch 1; Count 0; Count 1;
   Save 0 "20250101_120000"; Save 1 "20250101_120000"].

(** The same schedule with the saves one second apart. *)
Definition next_second_schedule : list event :=
  [NextBatch; Fetch 0; Fetch 1; Count 0; Count 1;
   Save 0 "20250101_120000"; Save 1 "20250101_120001"].

(** A run on a site that cannot be reached: nothing is collected. *)
Definition dead_run : config := scrape_config dead_site "search" ∅ ∅ 3 5.

(** Labels for the fifteen fields of the main block's [LABEL_MAPPING]. *)
Definition sample_labels : gmap string string :=
  list_to_map
    [ ("heating", "Heating:"); ("floor", "Floor:");
      ("finished_cond", "Condition:"); ("available_since", "Available:");
      ("admin_rent", "Rent:"); ("deposit", "Deposit");
      ("type_of_lister", "Lister:"); ("bd_yr_of_build", "Built:");
      ("bd_elevator", "Lift:"); ("bd_type", "Building:");
      ("bd_material", "Material:"); ("bd_windows_type", "Windows:");
      ("bd_energy_cert", "Energy:"); ("bd_security", "Security:");
      ("additional_info", "More:") ].

(** A search page on which the [href] of the first listing holds a line
    feed, and a site that serves it. *)
Definition wrapped_search_page : node :=
  document [listing_link ("x" ++ newline ++ "y"); listing_link "z"].

Definition wrapped_site : web :=
  {| requests_get := λ url, Ok {| status_code := 200; response_text := url |};
     html_parser := λ _, Ok wrapped_search_page |}.

(** Twenty-three listing URLs. *)
Definition twenty_three_urls : list string :=
  map (λ k, "https://www.otodom.pl/" ++ pretty k) (seq 1 23).

End Fixtures.

(** ** Properties of the Python values *)

Lemma bind_Ok {A B} (m : result A) (k : A → result B) (b : B) :
  bind m k = Ok b → ∃ a, m = Ok a ∧ k a = Ok b.
Proof. destruct m as [a|e]; simpl; [eauto | discriminate]. Qed.

Lemma comprehension_Raise {A B} (f : A → result B) (l : list A) (x : A) (e : exn) :
  x ∈ l → f x = Raise e → ∃ e', comprehension f l = Raise e'.
Proof.
  induction l as [|y l IH]; intros Hin Hx.
  - by apply not_elem_of_nil in Hin.
  - simpl. apply elem_of_cons in Hin as [<-|Hin].
    + rewrite Hx. simpl. eauto.
    + destruct (f y) as [b|e0]; simpl; [|eauto].
      destruct (IH Hin Hx) as [e' ->]. simpl. eauto.
Qed.

(** ** get_listings_page *)

Lemma get_listings_page_raise (w : web) (page_url : string) (e : exn) :
  get_listings_page_try w page_url = Raise e → get_listings_page w page_url = [].
Proof. unfold get_listings_page. by intros ->. Qed.

(** C9: when the page is fetched and parsed but one anchor carrying the
    listing-item marker has no [href], [get_listings_page] returns the
    empty list: the links of the other anchors of the page are dropped
    with it. *)
Theorem get_listings_page_missing_href (w : web) (page_url : string)
    (r : response) (soup link : node) :
  requests_get w page_url = Ok r →
  raise_for_status r = Ok tt →
  html_parser w (response_text r) = Ok soup →
  link ∈ find_all_tag_attr "a" "data-cy" "listing-item-link" soup →
  attributes link !! "href" = None →
  get_listings_page w page_url = [].
Proof.
  intros Hget Hstatus Hparse Hin Hhref.
  unfold get_listings_page, get_listings_page_try.
  rewrite Hget. simpl. rewrite Hstatus. simpl. rewrite Hparse. simpl.
  edestruct (comprehension_Raise
    (λ link, let* href := getitem link "href" in
             Ok ("https://www.otodom.pl/" ++ href))) as [e' ->]; [exact Hin| |done].
  unfold getitem. rewrite Hhref. reflexivity.
Qed.

Lemma get_listings_page_missing_href_witness :
  get_listings_page Fixtures.broken_site "search" = [].
Proof.
  apply (get_listings_page_missing_href Fixtures.broken_site "search"
           {| status_code := 200; response_text := "search" |}
           Fixtures.broken_search_page
           (NElem "a" [] {[ "data-cy" := "listing-item-link" ]} [])).
  - reflexivity.
  - reflexivity.
  - reflexivity.
  - vm_compute. right. left.
  - reflexivity.
Defined.

Lemma get_listings_page_no_marker (w : web) (page_url : string) :
  (∀ r soup, requests_get w page_url = Ok r →
             raise_for_status r = Ok tt →
             html_parser w (response_text r) = Ok soup →
             find_all_tag_attr "a" "data-cy" "listing-item-link" soup = []) →
  get_listings_page w page_url = [].
Proof.
  intros Hno. unfold get_listings_page, get_listings_page_try.
  destruct (requests_get w page_url) as [r|e] eqn:Hget; simpl; [|done].
  destruct (raise_for_status r) as [[]|e] eqn:Hstatus; simpl; [|done].
  destruct (html_parser w (response_text r)) as [soup|e] eqn:Hparse; simpl; [|done].
  by rewrite (Hno r soup).
Qed.

(** ** extract_label_value_pairs *)

Lemma label_value_step_yields (labels : list string) (results : gmap string string)
    (container : node) :
  label_value_step labels results container =
  match yields labels container with
  | Some (label, value) => <[label := value]> results
  | None => results
  end.
Proof.
  unfold label_value_step, yields, paragraph_value.
  destruct (find_all_tag "p" container) as [|p0 [|p1 [|p2 ps]]]; try done.
  case_bool_decide; [|done].
  by destruct (find_all_tag_class "span" "css-axw7ok" p1).
Qed.

Lemma foldl_label_value_step_skip (labels : list string) (cs : list node)
    (results : gmap string string) (label : string) :
  (∀ c value, c ∈ cs → yields labels c ≠ Some (label, value)) →
  foldl (label_value_step labels) results cs !! label = results !! label.
Proof.
  revert results. induction cs as [|c cs IH]; intros results Hcs; [done|].
  simpl. rewrite IH.
  - rewrite label_value_step_yields.
    destruct (yields labels c) as [[l v]|] eqn:Hy; [|done].
    apply lookup_insert_ne. intros ->. eapply Hcs; [left|exact Hy].
  - intros c' v' Hin. apply Hcs. by right.
Qed.

(** C2, as amended: the paragraphs counted in a container are those
    anywhere below it.  When [c] is a container of the container class on
    the page, in document order after the containers [before]: if exactly
    two paragraphs occur below [c] and the trimmed text of the first is a
    label to find, the map gets that label bound to the trimmed texts of
    the value spans of the second paragraph joined by ["; "], or to the
    trimmed text of the second paragraph when it has no value span; if the
    number of paragraphs below [c] is not two, or the label is not to be
    found, [c] leaves the map as the containers before it made it. *)
Theorem label_value_pair_of_container (soup : node) (labels_to_find : list string)
    (container_class : string) (before after : list node) (c : node) :
  find_all_tag_class "div" container_class soup = (before ++ c :: after)%list →
  let so_far := foldl (label_value_step labels_to_find) ∅ before in
  let with_c := foldl (label_value_step labels_to_find) ∅ (before ++ [c])%list in
  extract_label_value_pairs soup labels_to_find container_class
    = foldl (label_value_step labels_to_find) with_c after
  ∧ (∀ p0 p1, find_all_tag "p" c = [p0; p1] →
       strip (text p0) ∈ labels_to_find →
       with_c = <[strip (text p0) :=
                   match find_all_tag_class "span" "css-axw7ok" p1 with
                   | [] => strip (text p1)
                   | spans => join "; " (map (λ span, strip (text span)) spans)
                   end]> so_far)
  ∧ (length (find_all_tag "p" c) ≠ 2 → with_c = so_far)
  ∧ (∀ p0 p1, find_all_tag "p" c = [p0; p1] →
       strip (text p0) ∉ labels_to_find → with_c = so_far).
Proof.
  intros Hcs so_far with_c. subst so_far with_c.
  unfold extract_label_value_pairs. rewrite Hcs.
  rewrite !foldl_app. simpl. split; [done|].
  split; [|split].
  - intros p0 p1 Hp Hin. unfold label_value_step at 1. rewrite Hp.
    rewrite bool_decide_true by done.
    by destruct (find_all_tag_class "span" "css-axw7ok" p1).
  - intros Hlen. unfold label_value_step at 1.
    by destruct (find_all_tag "p" c) as [|p0 [|p1 [|p2 ps]]].
  - intros p0 p1 Hp Hnotin. unfold label_value_step at 1. rewrite Hp.
    by rewrite bool_decide_false.
Qed.

Lemma label_value_pair_of_container_witness :
  foldl (label_value_step ["Heating:"; "Floor:"]) ∅ [Fixtures.heating_block]
    = {[ "Heating:" := "Gas; Electric" ]}
  ∧ foldl (label_value_step ["Heating:"; "Floor:"]) ∅
      [Fixtures.heating_block; Fixtures.lift_block]
    = foldl (label_value_step ["Heating:"; "Floor:"]) ∅ [Fixtures.heating_block].
Proof.
  destruct (label_value_pair_of_container Fixtures.listing_page ["Heating:"; "Floor:"]
              Fixtures.container_class []
              [Fixtures.floor_block_3; Fixtures.floor_block_4; Fixtures.lift_block]
              Fixtures.heating_block) as (_ & Hyes & _ & _); [by vm_compute|].
  destruct (label_value_pair_of_container
              (Fixtures.document [Fixtures.heating_block; Fixtures.lift_block])
              ["Heating:"; "Floor:"] Fixtures.container_class
              [Fixtures.heating_block] [] Fixtures.lift_block)
    as (_ & _ & Hno & _); [by vm_compute|].
  split.
  - transitivity
      (<[strip (text (Fixtures.p "Heating:")) :=
           match find_all_tag_class "span" "css-axw7ok" Fixtures.heating_values with
           | [] => strip (text Fixtures.heating_values)
           | spans => join "; " (map (λ span, strip (text span)) spans)
           end]> (foldl (label_value_step ["Heating:"; "Floor:"]) ∅ [])).
    + apply (Hyes (Fixtures.p "Heating:") Fixtures.heating_values).
      * by vm_compute.
      * vm_compute. left.
    + by vm_compute.
  - apply Hno. by vm_compute.
Defined.

(** C2 as stated, read with paragraphs that are children of the container,
    fails: [nested_block] has exactly two child paragraphs, the first a
    label to find, and yet contributes nothing, because a third paragraph
    lies deeper in it. *)
Lemma two_child_paragraphs_counterexample :
  has_class Fixtures.container_class Fixtures.nested_block = true
  ∧ child_paragraphs Fixtures.nested_block = [Fixtures.p "Heating:"; Fixtures.p "Gas"]
  ∧ strip (text (Fixtures.p "Heating:")) ∈ ["Heating:"]
  ∧ extract_label_value_pairs (Fixtures.document [Fixtures.nested_block])
      ["Heating:"] Fixtures.container_class !! "Heating:" = None.
Proof.
  split; [by vm_compute|]. split; [by vm_compute|].
  split; [vm_compute; left|]. by vm_compute.
Qed.

(** C10: when several containers of the container class yield the same
    label, the map holds the value of the last of them in document order:
    if [c] yields [label] with [value] and no container after [c] yields
    [label], the map binds [label] to [value], whatever the containers
    before [c] yield. *)
Theorem last_container_wins (soup : node) (labels_to_find : list string)
    (container_class : string) (before after : list node) (c : node)
    (label value : string) :
  find_all_tag_class "div" container_class soup = (before ++ c :: after)%list →
  yields labels_to_find c = Some (label, value) →
  (∀ c' value', c' ∈ after → yields labels_to_find c' ≠ Some (label, value')) →
  extract_label_value_pairs soup labels_to_find container_class !! label = Some value.
Proof.
  intros Hcs Hy Hafter. unfold extract_label_value_pairs. rewrite Hcs.
  rewrite foldl_app. simpl.
  rewrite foldl_label_value_step_skip by done.
  rewrite label_value_step_yields, Hy. apply lookup_insert_eq.
Qed.

Lemma last_container_wins_witness :
  yields ["Heating:"; "Floor:"] Fixtures.floor_block_3 = Some ("Floor:", "3")
  ∧ extract_label_value_pairs Fixtures.listing_page ["Heating:"; "Floor:"]
      Fixtures.container_class !! "Floor:" = Some "4".
Proof.
  split; [by vm_compute|].
  apply (last_container_wins Fixtures.listing_page ["Heating:"; "Floor:"]
           Fixtures.container_class
           [Fixtures.heating_block; Fixtures.floor_block_3] [Fixtures.lift_block]
           Fixtures.floor_block_4 "Floor:" "4").
  - by vm_compute.
  - by vm_compute.
  - intros c' value' Hin. apply list_elem_of_singleton in Hin as ->.
    by vm_compute.
Defined.

(** ** get_listing_details *)

Lemma foldl_insert_dom {V B} (g : B → V) (l : list (string * B)) (d : gmap string V) :
  dom (foldl (λ d item, <[item.1 := g item.2]> d) d l) = dom d ∪ list_to_set l.*1.
Proof.
  revert d. induction l as [|[k b] l IH]; intros d; simpl.
  - by rewrite (right_id_L ∅ (∪)).
  - rewrite IH, dom_insert_L.
    by rewrite (comm_L (∪) {[k]} (dom d)), <-(assoc_L (∪)).
Qed.

Lemma foldl_insert_lookup_notin {V B} (g : B → V) (l : list (string * B))
    (d : gmap string V) (k : string) :
  k ∉ l.*1 → foldl (λ d item, <[item.1 := g item.2]> d) d l !! k = d !! k.
Proof.
  revert d. induction l as [|[k' b] l IH]; intros d Hk; simpl; [done|].
  simpl in Hk. apply not_elem_of_cons in Hk as [Hne Hk].
  rewrite IH by done. by apply lookup_insert_ne.
Qed.

Lemma foldl_insert_lookup_in {V B} (g : B → V) (l : list (string * B))
    (d : gmap string V) (k : string) (b : B) :
  NoDup l.*1 → (k, b) ∈ l →
  foldl (λ d item, <[item.1 := g item.2]> d) d l !! k = Some (g b).
Proof.
  revert d. induction l as [|[k' b'] l IH]; intros d Hnd Hin; simpl.
  - by apply not_elem_of_nil in Hin.
  - simpl in Hnd. apply NoDup_cons in Hnd as [Hk' Hnd].
    apply elem_of_cons in Hin as [Heq|Hin].
    + injection Heq as -> ->.
      rewrite foldl_insert_lookup_notin by done. apply lookup_insert_eq.
    + by apply IH.
Qed.

Lemma list_to_set_keys (m : gmap string string) :
  list_to_set (map_to_list m).*1 =@{gset string} dom m.
Proof.
  apply set_eq. intros k. rewrite elem_of_list_to_set, list_elem_of_fmap, elem_of_dom.
  split.
  - intros ([k' v] & -> & Hin). apply elem_of_map_to_list in Hin. by exists v.
  - intros [v Hv]. exists (k, v). split; [done|]. by apply elem_of_map_to_list.
Qed.

Lemma not_elem_of_keys (m : gmap string string) (k : string) :
  k ∉ dom m → k ∉ (map_to_list m).*1.
Proof. rewrite <-list_to_set_keys, elem_of_list_to_set. done. Qed.

Lemma get_listing_details_try_Ok (w : web) (listing_url : string)
    (div_class_mapping label_mapping : gmap string string) (r : response) (soup : node) :
  requests_get w listing_url = Ok r →
  raise_for_status r = Ok tt →
  html_parser w (response_text r) = Ok soup →
  ∃ d, get_listing_details_try w listing_url div_class_mapping label_mapping = Ok d
       ∧ get_listing_details w listing_url div_class_mapping label_mapping = d
       ∧ dom d = {["url"]} ∪ dom div_class_mapping ∪ dom label_mapping
       ∧ ("url" ∉ dom div_class_mapping → "url" ∉ dom label_mapping →
            d !! "url" = Some (Some listing_url))
       ∧ (∀ field selector,
            div_class_mapping !! field = Some selector → field ∉ dom label_mapping →
            d !! field = Some ((λ element, strip (text element)) <$> find_class selector soup))
       ∧ (∀ field label,
            label_mapping !! field = Some label →
            d !! field =
              Some (extract_label_value_pairs soup (map_to_list label_mapping).*2
                      "css-t7cajz e15n0fyo1" !! label)).
Proof.
  intros Hget Hstatus Hparse. unfold get_listing_details, get_listing_details_try.
  rewrite Hget. simpl. rewrite Hstatus. simpl. rewrite Hparse. simpl.
  eexists. split; [reflexivity|]. split; [reflexivity|].
  set (direct := λ selector, (λ element, strip (text element)) <$> find_class selector soup).
  set (label_values := extract_label_value_pairs soup _ _).
  split; [|split; [|split]].
  - rewrite (foldl_insert_dom (λ label, label_values !! label)).
    rewrite (foldl_insert_dom direct).
    rewrite !list_to_set_keys, dom_singleton_L. done.
  - intros Hdiv Hlab.
    rewrite (foldl_insert_lookup_notin (λ label, label_values !! label))
      by by apply not_elem_of_keys.
    rewrite (foldl_insert_lookup_notin direct) by by apply not_elem_of_keys.
    apply lookup_singleton_eq.
  - intros field selector Hfield Hlab.
    rewrite (foldl_insert_lookup_notin (λ label, label_values !! label))
      by by apply not_elem_of_keys.
    apply (foldl_insert_lookup_in direct).
    + apply NoDup_fst_map_to_list.
    + by apply elem_of_map_to_list.
  - intros field label Hfield.
    apply (foldl_insert_lookup_in (λ label, label_values !! label)).
    + apply NoDup_fst_map_to_list.
    + by apply elem_of_map_to_list.
Qed.

Lemma get_listing_details_try_nonempty (w : web) (listing_url : string)
    (div_class_mapping label_mapping : gmap string string) (d : details) :
  get_listing_details_try w listing_url div_class_mapping label_mapping = Ok d → d ≠ ∅.
Proof.
  unfold get_listing_details_try. intros Htry.
  apply bind_Ok in Htry as (r & Hget & Htry).
  apply bind_Ok in Htry as ([] & Hstatus & Htry).
  apply bind_Ok in Htry as (soup & Hparse & Htry).
  destruct (get_listing_details_try_Ok w listing_url div_class_mapping label_mapping
              r soup Hget Hstatus Hparse) as (d' & Hd' & _ & Hdom & _).
  unfold get_listing_details_try in Hd'.
  rewrite Hget in Hd'. simpl in Hd'. rewrite Hstatus in Hd'. simpl in Hd'.
  rewrite Hparse in Hd'. simpl in Hd'. rewrite Htry in Hd'. injection Hd' as <-.
  intros ->. rewrite dom_empty_L in Hdom.
  assert ("url" ∈ (∅ : gset string)) as Hin; [|by apply not_elem_of_empty in Hin].
  rewrite Hdom. apply elem_of_union_l, elem_of_union_l. by apply elem_of_singleton.
Qed.

(** C1, as amended: when the page of a listing is fetched and parsed, the
    record returned has exactly the keys [url], the fields of
    [div_class_mapping] and the fields of [label_mapping]; its [url] field
    is the input URL provided neither mapping has a field named [url]; and
    each field of [div_class_mapping] that is not also a field of
    [label_mapping] holds the trimmed text of the first element matching
    its selector class, or [None] when no element matches. *)
Theorem get_listing_details_record (w : web) (listing_url : string)
    (div_class_mapping label_mapping : gmap string string) (r : response) (soup : node) :
  requests_get w listing_url = Ok r →
  raise_for_status r = Ok tt →
  html_parser w (response_text r) = Ok soup →
  let d := get_listing_details w listing_url div_class_mapping label_mapping in
  dom d = {["url"]} ∪ dom div_class_mapping ∪ dom label_mapping
  ∧ ("url" ∉ dom div_class_mapping → "url" ∉ dom label_mapping →
       d !! "url" = Some (Some listing_url))
  ∧ (∀ field selector,
       div_class_mapping !! field = Some selector → field ∉ dom label_mapping →
       d !! field =
         Some (match head (filter (λ e, has_class selector e = true) (descendants soup)) with
               | Some element => Some (strip (text element))
               | None => None
               end)).
Proof.
  intros Hget Hstatus Hparse.
  destruct (get_listing_details_try_Ok w listing_url div_class_mapping label_mapping
              r soup Hget Hstatus Hparse) as (d' & _ & -> & Hdom & Hurl & Hdirect & _).
  simpl. split; [done|]. split; [done|].
  intros field selector Hfield Hlab. rewrite (Hdirect field selector Hfield Hlab).
  unfold find_class. by destruct (head _).
Qed.

Lemma get_listing_details_record_witness :
  get_listing_details Fixtures.good_site "https://www.otodom.pl/x"
    {[ "price" := "css-1o51x5a" ]} {[ "heating" := "Heating:" ]} !! "url"
    = Some (Some "https://www.otodom.pl/x")
  ∧ get_listing_details Fixtures.good_site "https://www.otodom.pl/x"
      {[ "price" := "css-1o51x5a" ]} {[ "heating" := "Heating:" ]} !! "price"
    = Some (Some "2500 zl").
Proof.
  destruct (get_listing_details_record Fixtures.good_site "https://www.otodom.pl/x"
              {[ "price" := "css-1o51x5a" ]} {[ "heating" := "Heating:" ]}
              {| status_code := 200; response_text := "https://www.otodom.pl/x" |}
              Fixtures.listing_page eq_refl eq_refl eq_refl) as (_ & Hurl & Hdirect).
  split.
  - apply Hurl; apply not_elem_of_dom; by vm_compute.
  - rewrite (Hdirect "price" "css-1o51x5a").
    + by vm_compute.
    + by vm_compute.
    + apply not_elem_of_dom. by vm_compute.
Defined.

(** C1 as stated fails in two ways.  With a direct-selector field named
    [url] the [url] field holds the text of the selected element, not the
    input URL; and a field present in both mappings holds the value of the
    label lookup (here [None]), not the text of the element its selector
    matches (here ["2500 zl"]). *)
Lemma url_field_counterexample :
  get_listing_details Fixtures.good_site "https://www.otodom.pl/x"
    {[ "url" := "css-1o51x5a" ]} ∅ !! "url" = Some (Some "2500 zl")
  ∧ get_listing_details Fixtures.good_site "https://www.otodom.pl/x"
      {[ "price" := "css-1o51x5a" ]} {[ "price" := "Price:" ]} !! "price" = Some None
  ∧ (λ element, strip (text element)) <$> find_class "css-1o51x5a" Fixtures.listing_page
    = Some "2500 zl".
Proof. split; [by vm_compute|]. split; by vm_compute. Qed.

(** ** scrape_apartments: de-duplication *)

Lemma unique_NoDup (all_urls : list string) : NoDup (unique all_urls).
Proof. unfold unique. apply NoDup_elements. Qed.

Lemma elem_of_unique (all_urls : list string) (url : string) :
  url ∈ unique all_urls ↔ url ∈ all_urls.
Proof. unfold unique. by rewrite elem_of_elements, elem_of_list_to_set. Qed.

(** ** scrape_apartments: cutting a list into pieces *)

Lemma ceil_div_bounds (a b : nat) :
  0 < b → a ≤ ceil_div a b * b ∧ (0 < a → (ceil_div a b - 1) * b < a ∧ 0 < ceil_div a b).
Proof.
  intros Hb. unfold ceil_div.
  pose proof (Nat.div_mod_eq a b) as Hdm.
  pose proof (Nat.mod_upper_bound a b ltac:(lia)) as Hmod.
  destruct (Nat.eqb_spec (a mod b) 0) as [H0|H0].
  - rewrite H0 in Hdm. split; [nia|]. intros Ha.
    assert (0 < a / b) by nia. split; nia.
  - split; [nia|]. intros Ha. split; nia.
Qed.

Lemma ceil_div_0 (b : nat) : 0 < b → ceil_div 0 b = 0.
Proof.
  intros Hb. unfold ceil_div. rewrite Nat.Div0.div_0_l, Nat.Div0.mod_0_l. done.
Qed.

Lemma ceil_div_le (a b c : nat) : 0 < b → a ≤ c * b → ceil_div a b ≤ c.
Proof.
  intros Hb Hac. destruct (decide (a = 0)) as [->|Ha].
  - rewrite ceil_div_0 by done. lia.
  - destruct (ceil_div_bounds a b Hb) as [_ H]. destruct H as [H1 H2]; [lia|]. nia.
Qed.

(** The consecutive pieces of [u] elements of a list. *)
Lemma concat_pieces {A} (u n : nat) (l : list A) :
  concat (map (λ k, take u (drop (k * u) l)) (seq 0 n)) = take (n * u) l.
Proof.
  induction n as [|n IH]; [done|].
  rewrite seq_S, map_app, concat_app, IH. simpl.
  rewrite (right_id_L [] (++)), take_take_drop. f_equal. lia.
Qed.

Lemma url_chunks_Ok (batch_urls : list string) (num_workers : nat) :
  batch_urls ≠ [] → 1 ≤ num_workers →
  let urls_per_worker := ceil_div (length batch_urls) num_workers in
  0 < urls_per_worker
  ∧ url_chunks batch_urls num_workers =
      Ok (map (λ k, take urls_per_worker (drop (k * urls_per_worker) batch_urls))
              (seq 0 (ceil_div (length batch_urls) urls_per_worker))).
Proof.
  intros Hne Hnw upw.
  assert (0 < length batch_urls) as Hlen by (destruct batch_urls; simpl; [done|lia]).
  destruct (ceil_div_bounds (length batch_urls) num_workers ltac:(lia)) as [_ Hpos].
  destruct (Hpos Hlen) as [_ Hupw]. fold upw in Hupw. split; [done|].
  unfold url_chunks, math_ceil_div, range_step. fold upw.
  destruct (Nat.eqb_spec num_workers 0); [lia|]. simpl.
  destruct (Nat.eqb_spec upw 0); [lia|]. simpl.
  f_equal. rewrite map_map. apply map_ext. intros k. unfold slice.
  f_equal. lia.
Qed.

Lemma url_chunks_concat (batch_urls : list string) (num_workers : nat)
    (chunks : list (list string)) :
  url_chunks batch_urls num_workers = Ok chunks → concat chunks = batch_urls.
Proof.
  unfold url_chunks, math_ceil_div, range_step.
  destruct (Nat.eqb_spec num_workers 0) as [|Hnw]; [done|]. simpl.
  destruct (Nat.eqb_spec (ceil_div (length batch_urls) num_workers) 0) as [|Hupw];
    [done|]. simpl.
  intros [= <-]. rewrite map_map.
  rewrite (map_ext _ (λ k, take (ceil_div (length batch_urls) num_workers)
                             (drop (k * ceil_div (length batch_urls) num_workers)
                                   batch_urls))).
  - rewrite concat_pieces. apply take_ge.
    apply (ceil_div_bounds (length batch_urls)). lia.
  - intros k. unfold slice. f_equal. lia.
Qed.

(** ** scrape_apartments: the URL file *)

Lemma universal_newlines_line (url rest : string) :
  has_line_break url = false →
  universal_newlines (url ++ newline ++ rest) = url ++ newline ++ universal_newlines rest.
Proof.
  induction url as [|c url IH]; intros Hurl.
  - reflexivity.
  - simpl in Hurl. apply orb_false_elim in Hurl as [Hc Hurl].
    apply orb_false_elim in Hc as [_ Hcr].
    change (universal_newlines (String c (url ++ newline ++ rest))
            = String c (url ++ newline ++ universal_newlines rest)).
    cbn [universal_newlines]. rewrite Hcr. f_equal. by apply IH.
Qed.

Lemma split_lines_line (url rest : string) :
  has_line_break url = false →
  split_lines (url ++ newline ++ rest) = (url ++ newline) :: split_lines rest.
Proof.
  induction url as [|c url IH]; intros Hurl.
  - reflexivity.
  - simpl in Hurl. apply orb_false_elim in Hurl as [Hc Hurl].
    apply orb_false_elim in Hc as [Hlf _].
    change (split_lines (String c (url ++ newline ++ rest))
            = String c (url ++ newline) :: split_lines rest).
    cbn [split_lines]. rewrite Hlf, IH by done. reflexivity.
Qed.

Lemma open_lines_urls_file_text (urls : list string) :
  Forall (λ url, has_line_break url = false) urls →
  open_lines (urls_file_text urls) = map (λ url, url ++ newline) urls.
Proof.
  unfold open_lines. induction 1 as [|url urls Hurl _ IH]; [done|].
  cbn [urls_file_text fold_right map].
  rewrite universal_newlines_line, split_lines_line by done.
  f_equal. exact IH.
Qed.

(** ** scrape_apartments: the persisted URLs *)

Lemma app_newline_inj (x y : string) : x ++ newline = y ++ newline → x = y.
Proof.
  revert y. induction x as [|c x IH]; intros [|d y] Heq.
  - done.
  - exfalso. change (String LF "" = String d (y ++ newline)) in Heq.
    injection Heq as _ Heq. by destruct y.
  - exfalso. change (String c (x ++ newline) = String LF "") in Heq.
    injection Heq as _ Heq. by destruct x.
  - change (String c (x ++ newline) = String d (y ++ newline)) in Heq.
    injection Heq as -> Heq. f_equal. by apply IH.
Qed.

Lemma unique_no_line_break (all_urls : list string) :
  Forall (λ url, has_line_break url = false) all_urls →
  Forall (λ url, has_line_break url = false) (unique all_urls).
Proof.
  rewrite !Forall_forall. intros Hall url Hurl. apply Hall. by apply elem_of_unique.
Qed.

Lemma unique_ABAC (A B C : string) :
  A ≠ B → A ≠ C → B ≠ C → unique [A; B; A; C] ≡ₚ [A; B; C].
Proof.
  intros HAB HAC HBC. apply NoDup_Permutation.
  - apply unique_NoDup.
  - repeat (apply NoDup_cons; split); [| |by apply not_elem_of_nil|apply NoDup_nil_2].
    + rewrite !elem_of_cons. intros [?|[?|?%not_elem_of_nil]]; done.
    + rewrite !elem_of_cons. intros [?|?%not_elem_of_nil]; done.
  - intros url. rewrite elem_of_unique, !elem_of_cons. tauto.
Qed.

(** C8, as amended: the list of unique URLs has no repetition and has
    exactly the members of the collected list, whatever order it comes in;
    for [[A; B; A; C]] with [A], [B], [C] distinct it is a rearrangement of
    [[A; B; C]].  When no collected URL holds a line break, the lines of the
    URL file written from it (lines 132-134), as the scheduler reads them
    back, are these URLs each followed by a line feed: every distinct URL is
    one line of the file, once, the file has no other line, and it has as
    many lines as there are distinct URLs, 3 for [[A; B; A; C]]. *)
Theorem unique_urls_exactly_once (all_urls : list string) :
  let unique_urls := unique all_urls in
  let lines := open_lines (urls_file_text unique_urls) in
  NoDup unique_urls
  ∧ (∀ url, url ∈ unique_urls ↔ url ∈ all_urls)
  ∧ (∀ A B C : string, A ≠ B → A ≠ C → B ≠ C →
       unique [A; B; A; C] ≡ₚ [A; B; C] ∧ length (unique [A; B; A; C]) = 3)
  ∧ (Forall (λ url, has_line_break url = false) all_urls →
       lines = map (λ url, url ++ newline) unique_urls
       ∧ NoDup lines
       ∧ (∀ line, line ∈ lines ↔ ∃ url, url ∈ all_urls ∧ line = url ++ newline)
       ∧ length lines = length unique_urls
       ∧ (∀ A B C : string, all_urls = [A; B; A; C] → A ≠ B → A ≠ C → B ≠ C →
            lines ≡ₚ [A ++ newline; B ++ newline; C ++ newline]
            ∧ length lines = 3)).
Proof.
  intros unique_urls lines.
  split; [apply unique_NoDup|]. split; [apply elem_of_unique|].
  split.
  { intros A B C HAB HAC HBC. pose proof (unique_ABAC A B C HAB HAC HBC) as Hperm.
    split; [done|]. by rewrite Hperm. }
  intros Hall.
  assert (lines = map (λ url, url ++ newline) unique_urls) as Hlines.
  { apply open_lines_urls_file_text, unique_no_line_break, Hall. }
  split; [exact Hlines|]. rewrite Hlines. split; [|split; [|split]].
  - assert (Inj (=) (=) (λ url, url ++ newline)) as Hinj
      by (intros x y; apply app_newline_inj).
    apply (NoDup_fmap_2 (λ url, url ++ newline)), unique_NoDup.
  - intros line. change (map ?f ?l) with (f <$> l).
    rewrite list_elem_of_fmap. split.
    + intros (url & -> & Hurl). exists url. split; [by apply elem_of_unique|done].
    + intros (url & Hurl & ->). exists url. split; [done|by apply elem_of_unique].
  - by rewrite length_map.
  - intros A B C -> HAB HAC HBC.
    pose proof (unique_ABAC A B C HAB HAC HBC) as Hperm.
    unfold unique_urls. change (map ?f ?l) with (f <$> l).
    rewrite Hperm. split; [done|]. done.
Qed.

Lemma unique_urls_exactly_once_witness :
  open_lines (urls_file_text (unique ["A"; "B"; "A"; "C"]))
    ≡ₚ ["A" ++ newline; "B" ++ newline; "C" ++ newline]
  ∧ length (open_lines (urls_file_text (unique ["A"; "B"; "A"; "C"]))) = 3.
Proof.
  destruct (unique_urls_exactly_once ["A"; "B"; "A"; "C"]) as (_ & _ & _ & Hfile).
  destruct Hfile as (_ & _ & _ & _ & Habc); [repeat constructor|].
  by apply (Habc "A" "B" "C").
Defined.

(** C8 as stated fails for a collected URL that holds a line break.  A
    search page whose first listing has a line feed in its [href] gives two
    unique URLs; the file written from them has three lines, the line [y]
    is no collected URL, and the first collected URL is no line of the
    file. *)
Lemma line_break_url_counterexample :
  let all_urls := collect_urls Fixtures.wrapped_site "search" 1 in
  let lines := open_lines (urls_file_text (unique all_urls)) in
  all_urls = ["https://www.otodom.pl/x" ++ newline ++ "y"; "https://www.otodom.pl/z"]
  ∧ length (unique all_urls) = 2
  ∧ length lines = 3
  ∧ (("y" ++ newline) ∈ lines)
  ∧ ("y" ∉ all_urls)
  ∧ ((("https://www.otodom.pl/x" ++ newline ++ "y") ++ newline) ∉ lines).
Proof.
  split; [by vm_compute|]. split; [by vm_compute|]. split; [by vm_compute|].
  split; [|split]; apply (bool_decide_unpack _); by vm_compute.
Qed.

Lemma length_lstrip (s : string) : String.length (lstrip s) ≤ String.length s.
Proof.
  induction s as [|c s IH]; simpl; [done|]. destruct (isspace c); simpl; lia.
Qed.

Lemma length_rstrip (s : string) : String.length (rstrip s) ≤ String.length s.
Proof.
  induction s as [|c s IH]; simpl; [done|].
  destruct (rstrip s); [destruct (isspace c)|]; simpl in *; lia.
Qed.

Lemma rstrip_newline (s : string) : rstrip (s ++ newline) = rstrip s.
Proof.
  induction s as [|c s IH]; [reflexivity|].
  change (rstrip (String c (s ++ newline)) = rstrip (String c s)).
  cbn [rstrip]. by rewrite IH.
Qed.

Lemma strip_line (url : string) : strip url = url → strip (url ++ newline) = url.
Proof.
  intros Hurl. destruct url as [|c url]; [reflexivity|].
  unfold strip in *.
  change (rstrip (lstrip (String c (url ++ newline))) = String c url).
  cbn [lstrip] in *. destruct (isspace c) eqn:Hc.
  - pose proof (length_rstrip (lstrip url)) as H1.
    pose proof (length_lstrip url) as H2.
    rewrite Hurl in H1. simpl in H1. lia.
  - change (String c (url ++ newline)) with (String c url ++ newline).
    by rewrite rstrip_newline.
Qed.

Lemma skip_lines_Ok (n : nat) (f : list string) :
  n ≤ length f → skip_lines n f = Ok (drop n f).
Proof.
  revert f. induction n as [|n IH]; intros f Hn; [done|].
  destruct f as [|l f]; simpl in *; [lia|]. apply IH. lia.
Qed.

Lemma take_lines_Ok (n : nat) (f : list string) :
  n ≤ length f → take_lines n f = Ok (map strip (take n f)).
Proof.
  revert f. induction n as [|n IH]; intros f Hn; [done|].
  destruct f as [|l f]; simpl in *; [lia|]. rewrite IH by lia. done.
Qed.

Lemma take_lines_length (n : nat) (f batch : list string) :
  take_lines n f = Ok batch → length batch = n.
Proof.
  revert f batch. induction n as [|n IH]; intros f batch; simpl.
  - by intros [= <-].
  - destruct f as [|l f]; simpl; [done|].
    destruct (take_lines n f) as [rest|e] eqn:Hrest; simpl; [|done].
    intros [= <-]. simpl. f_equal. by eapply IH.
Qed.

Lemma read_batch_length (file_text : string) (urls_processed batch_size total_urls : nat)
    (batch_urls : list string) :
  read_batch file_text urls_processed batch_size total_urls = Ok batch_urls →
  length batch_urls = batch_size `min` (total_urls - urls_processed).
Proof.
  unfold read_batch. intros H. apply bind_Ok in H as (f' & _ & H).
  by eapply take_lines_length.
Qed.

Lemma read_batch_Ok (urls : list string) (urls_processed batch_size : nat) :
  Forall url_line urls → urls_processed ≤ length urls →
  read_batch (urls_file_text urls) urls_processed batch_size (length urls)
    = Ok (take batch_size (drop urls_processed urls)).
Proof.
  intros Hurls Hup. unfold read_batch.
  rewrite open_lines_urls_file_text
    by (eapply Forall_impl; [exact Hurls|by intros url [? _]]).
  rewrite skip_lines_Ok by (rewrite length_map; lia). simpl.
  rewrite take_lines_Ok by (rewrite length_drop, length_map; lia).
  f_equal. rewrite skipn_map, firstn_map, map_map.
  rewrite <-(take_take (drop urls_processed urls)), <-length_drop.
  rewrite (take_ge (drop urls_processed urls)) by done.
  rewrite <-(map_id (take batch_size _)) at 2.
  apply map_ext_Forall.
  apply Forall_take, Forall_drop.
  eapply Forall_impl; [exact Hurls|]. intros url [_ Hstrip]. by apply strip_line.
Qed.

Lemma read_batches_Ok (urls : list string) (batch_size batches_left urls_processed : nat) :
  Forall url_line urls → urls_processed ≤ length urls →
  read_batches (urls_file_text urls) batch_size (length urls) batches_left urls_processed
    = Ok (map (λ j, take batch_size (drop (urls_processed + j * batch_size) urls))
              (seq 0 batches_left)).
Proof.
  intros Hurls. revert urls_processed.
  induction batches_left as [|k IH]; intros up Hup; [done|].
  cbn [read_batches]. rewrite read_batch_Ok by done. simpl bind.
  rewrite IH by (rewrite length_take, length_drop; lia). simpl bind.
  f_equal. cbn [seq map]. f_equal; [by rewrite Nat.add_0_r|].
  rewrite <-seq_shift, map_map. apply map_ext. intros j.
  rewrite length_take, length_drop.
  destruct (decide (batch_size ≤ length urls - up)) as [Hfull|Hlast].
  - f_equal. f_equal. lia.
  - rewrite !drop_ge by lia. done.
Qed.

Lemma universal_newlines_cons (c : ascii) (s : string) :
  universal_newlines (String c s) =
  if Ascii.eqb c CR then
    match s with
    | String c' _ =>
        if Ascii.eqb c' LF then universal_newlines s
        else String LF (universal_newlines s)
    | EmptyString => String LF EmptyString
    end
  else String c (universal_newlines s).
Proof. by destruct s. Qed.

Lemma universal_newlines_url (url rest : string) :
  ∃ line, universal_newlines (url ++ newline ++ rest)
          = line ++ newline ++ universal_newlines rest.
Proof.
  induction url as [|c url [line IH]].
  - by exists "".
  - change (String c url ++ newline ++ rest)
      with (String c (url ++ newline ++ rest)).
    rewrite universal_newlines_cons. destruct (Ascii.eqb c CR).
    + destruct url as [|c' url'].
      * exists "". reflexivity.
      * change (String c' url' ++ newline ++ rest)
          with (String c' (url' ++ newline ++ rest)) in *.
        cbv beta iota. destruct (Ascii.eqb c' LF).
        -- by exists line.
        -- exists (String LF line). by rewrite IH.
    + exists (String c line). by rewrite IH.
Qed.

Lemma split_lines_count (line rest : string) :
  S (length (split_lines rest)) ≤ length (split_lines (line ++ newline ++ rest)).
Proof.
  induction line as [|c line IH].
  - change ("" ++ newline ++ rest) with (String LF rest). cbn [split_lines].
    change (Ascii.eqb LF LF) with true. simpl. lia.
  - change (String c line ++ newline ++ rest)
      with (String c (line ++ newline ++ rest)).
    cbn [split_lines]. destruct (Ascii.eqb c LF); [simpl; lia|].
    destruct (split_lines (line ++ newline ++ rest)); simpl in *; lia.
Qed.

Lemma open_lines_count (urls : list string) :
  length urls ≤ length (open_lines (urls_file_text urls)).
Proof.
  unfold open_lines. induction urls as [|url urls IH]; [simpl; lia|].
  cbn [urls_file_text fold_right].
  destruct (universal_newlines_url url (urls_file_text urls)) as [line Hline].
  unfold urls_file_text in Hline. rewrite Hline.
  pose proof (split_lines_count line
                (universal_newlines (fold_right (λ url acc, url ++ newline ++ acc)
                                                "" urls))) as Hcount.
  simpl. unfold urls_file_text in IH. lia.
Qed.

Lemma read_batch_succeeds (file_text : string)
    (urls_processed batch_size total_urls : nat) :
  total_urls ≤ length (open_lines file_text) → urls_processed ≤ total_urls →
  ∃ batch_urls,
    read_batch file_text urls_processed batch_size total_urls = Ok batch_urls.
Proof.
  intros Hlines Hup. unfold read_batch.
  rewrite skip_lines_Ok by lia. simpl.
  rewrite take_lines_Ok by (rewrite length_drop; lia). eauto.
Qed.

(** C4: let [urls] be the URLs written to the file, each one line with no
    surrounding whitespace, and [num_workers ≥ 1].  The scheduler reads
    exactly [total_batches = ceil(total_urls / batch_size)] batches, where
    [batch_size = num_workers × 1000]; when batch [k] is read,
    [urls_processed], the number of URLs in the batches before it, is
    [k × batch_size], and the batch is the next
    [min(batch_size, total_urls − urls_processed)] URLs after the first
    [urls_processed]; the batches concatenated in order are the written
    list, so that a list without repetition is read without repetition. *)
Theorem scheduler_reads_every_url (urls : list string) (num_workers : nat) :
  1 ≤ num_workers →
  Forall url_line urls →
  let total_urls := length urls in
  let batch_size := num_workers * 1000 in
  let total_batches := ceil_div total_urls batch_size in
  ∃ batches,
    scheduler_batches (urls_file_text urls) total_urls num_workers = Ok batches
    ∧ length batches = total_batches
    ∧ concat batches = urls
    ∧ (∀ k batch_urls, batches !! k = Some batch_urls →
         let urls_processed := length (concat (take k batches)) in
         urls_processed = k * batch_size
         ∧ batch_urls = take (batch_size `min` (total_urls - urls_processed))
                             (drop urls_processed urls))
    ∧ (NoDup urls → NoDup (concat batches)).
Proof.
  intros Hnw Hurls total_urls batch_size total_batches.
  assert (0 < batch_size) as Hbs by (unfold batch_size; lia).
  destruct (ceil_div_bounds total_urls batch_size Hbs) as [Hcover Hlast].
  fold total_batches in Hcover, Hlast.
  set (batches := map (λ j, take batch_size (drop (j * batch_size) urls))
                      (seq 0 total_batches)).
  assert (concat batches = urls) as Hconcat.
  { unfold batches. rewrite concat_pieces. apply take_ge. by fold total_urls. }
  exists batches. split; [|split; [|split; [|split]]].
  - unfold scheduler_batches, math_ceil_div. fold batch_size.
    destruct (Nat.eqb_spec batch_size 0); [lia|]. simpl bind.
    fold total_batches. unfold total_urls. rewrite read_batches_Ok by (done || lia).
    done.
  - unfold batches. by rewrite length_map, length_seq.
  - done.
  - intros k batch_urls Hk urls_processed.
    unfold batches in Hk. apply list_lookup_fmap_Some in Hk as (j & -> & Hj).
    apply lookup_seq in Hj as [-> Hj]. simpl in *.
    assert (0 < total_urls) as Hpos.
    { destruct (decide (total_urls = 0)) as [H0|]; [|lia].
      unfold total_batches in Hj. rewrite H0, ceil_div_0 in Hj by done. lia. }
    destruct (Hlast Hpos) as [Hlast' _].
    assert (urls_processed = k * batch_size) as Hup.
    { unfold urls_processed, batches.
      rewrite firstn_map, take_seq, Nat.min_l by lia.
      rewrite concat_pieces, length_take. fold total_urls. nia. }
    split; [exact Hup|]. rewrite Hup.
    rewrite <-(take_take (drop (k * batch_size) urls)).
    rewrite (take_ge (drop (k * batch_size) urls) (total_urls - k * batch_size));
      [done|].
    by rewrite length_drop.
  - by rewrite Hconcat.
Qed.

Lemma scheduler_reads_every_url_witness :
  ∃ batches,
    scheduler_batches
      (urls_file_text ["https://www.otodom.pl/x"; "https://www.otodom.pl/y"]) 2 3
      = Ok batches
    ∧ length batches = 1
    ∧ concat batches = ["https://www.otodom.pl/x"; "https://www.otodom.pl/y"].
Proof.
  destruct (scheduler_reads_every_url
              ["https://www.otodom.pl/x"; "https://www.otodom.pl/y"] 3)
    as (batches & Hread & Hlen & Hconcat & _).
  - lia.
  - repeat constructor.
  - exists batches. done.
Defined.

(** ** scrape_apartments: the chunks of a batch *)

Lemma url_chunks_23_5 (batch_urls : list string) :
  length batch_urls = 23 →
  ∃ chunks, url_chunks batch_urls 5 = Ok chunks ∧ length <$> chunks = [5; 5; 5; 5; 3].
Proof.
  intros H23.
  assert (batch_urls ≠ []) as Hne by (intros ->; done).
  destruct (url_chunks_Ok batch_urls 5 Hne ltac:(lia)) as [_ Hchunks].
  eexists. split; [exact Hchunks|].
  rewrite H23. vm_compute ceil_div. simpl.
  rewrite !length_take, !length_drop, H23. done.
Qed.

(** One batch holds all the URLs when there are no more of them than
    [batch_size]. *)
Lemma scheduler_batches_one (urls : list string) (num_workers : nat) :
  urls ≠ [] → length urls ≤ num_workers * 1000 →
  ∃ batch,
    scheduler_batches (urls_file_text urls) (length urls) num_workers = Ok [batch]
    ∧ length batch = length urls
    ∧ (Forall url_line urls → batch = urls).
Proof.
  intros Hne Hlen.
  assert (0 < length urls) as Hpos by (destruct urls; simpl; [done|lia]).
  assert (0 < num_workers * 1000) as Hbs by lia.
  assert (ceil_div (length urls) (num_workers * 1000) = 1) as Htb.
  { destruct (ceil_div_bounds (length urls) (num_workers * 1000) Hbs) as [_ Hlast].
    destruct (Hlast Hpos) as [_ Hge].
    pose proof (ceil_div_le (length urls) (num_workers * 1000) 1 Hbs ltac:(lia)). lia. }
  destruct (read_batch_succeeds (urls_file_text urls) 0 (num_workers * 1000)
              (length urls) (open_lines_count urls) ltac:(lia)) as [batch Hread].
  pose proof (read_batch_length _ _ _ _ _ Hread) as Hbatch.
  exists batch. split; [|split].
  - unfold scheduler_batches, math_ceil_div.
    destruct (Nat.eqb_spec (num_workers * 1000) 0); [lia|]. simpl bind.
    rewrite Htb. cbn [read_batches]. rewrite Hread. done.
  - lia.
  - intros Hurls. rewrite read_batch_Ok in Hread by (done || lia).
    injection Hread as <-. rewrite drop_0. apply take_ge. lia.
Qed.

(** C3, as amended: a non-empty batch and [num_workers ≥ 1] give
    [ceil(batchLen / urls_per_worker)] chunks, which is at least one and at
    most [num_workers] but need not be [num_workers]; the chunks are
    consecutive pieces of the batch, their concatenation in order is the
    batch, every chunk but the last has [urls_per_worker =
    ceil(batchLen / num_workers)] URLs and the last has between 1 and
    [urls_per_worker].  With 5 workers any 23 URLs written to the URL file
    are read as one batch of 23 URLs, which is cut into chunks of 5, 5, 5,
    5 and 3 URLs. *)
Theorem url_chunks_partition (batch_urls : list string) (num_workers : nat) :
  batch_urls ≠ [] → 1 ≤ num_workers →
  let urls_per_worker := ceil_div (length batch_urls) num_workers in
  (∃ chunks,
     url_chunks batch_urls num_workers = Ok chunks
     ∧ concat chunks = batch_urls
     ∧ length chunks = ceil_div (length batch_urls) urls_per_worker
     ∧ 1 ≤ length chunks ≤ num_workers
     ∧ (∀ i chunk, chunks !! i = Some chunk →
          chunk = take urls_per_worker (drop (i * urls_per_worker) batch_urls)
          ∧ 1 ≤ length chunk ≤ urls_per_worker
          ∧ (S i < length chunks → length chunk = urls_per_worker))
     ∧ (length batch_urls = 23 → num_workers = 5 →
          length <$> chunks = [5; 5; 5; 5; 3]))
  ∧ (num_workers = 5 → ∀ urls : list string, length urls = 23 →
       ∃ batch chunks,
         scheduler_batches (urls_file_text urls) (length urls) num_workers = Ok [batch]
         ∧ length batch = 23
         ∧ (Forall url_line urls → batch = urls)
         ∧ url_chunks batch num_workers = Ok chunks
         ∧ length <$> chunks = [5; 5; 5; 5; 3]).
Proof.
  intros Hne Hnw upw. split.
  - destruct (url_chunks_Ok batch_urls num_workers Hne Hnw) as [Hupw Hchunks].
    fold upw in Hupw, Hchunks.
    assert (0 < length batch_urls) as Hlen by (destruct batch_urls; simpl; [done|lia]).
    destruct (ceil_div_bounds (length batch_urls) num_workers ltac:(lia)) as [Hcover _].
    fold upw in Hcover.
    destruct (ceil_div_bounds (length batch_urls) upw Hupw) as [Hcover' Hlast].
    destruct (Hlast Hlen) as [Hlast1 Hlast2].
    set (n := ceil_div (length batch_urls) upw) in *.
    eexists. split; [exact Hchunks|].
    split; [exact (url_chunks_concat _ _ _ Hchunks)|].
    split; [by rewrite length_map, length_seq|].
    split.
    { rewrite length_map, length_seq. split; [lia|]. apply ceil_div_le; [done|nia]. }
    split.
    + intros i chunk Hi. rewrite length_map, length_seq.
      apply list_lookup_fmap_Some in Hi as (k & -> & Hk).
      apply lookup_seq in Hk as [-> Hk]. simpl.
      split; [done|]. rewrite length_take, length_drop. split; [nia|nia].
    + intros H23 ->. subst n upw. rewrite H23. vm_compute ceil_div. simpl.
      rewrite !length_take, !length_drop, H23. done.
  - intros -> urls H23.
    assert (urls ≠ []) as Hurls by (intros ->; done).
    destruct (scheduler_batches_one urls 5 Hurls ltac:(lia))
      as (batch & Hread & Hlen & Hsame).
    destruct (url_chunks_23_5 batch ltac:(lia)) as (chunks & Hchunks & Hsizes).
    exists batch, chunks. split; [done|]. split; [lia|]. done.
Qed.

Lemma url_chunks_partition_witness :
  ∃ batch chunks,
    scheduler_batches (urls_file_text Fixtures.twenty_three_urls) 23 5 = Ok [batch]
    ∧ batch = Fixtures.twenty_three_urls
    ∧ url_chunks batch 5 = Ok chunks
    ∧ length <$> chunks = [5; 5; 5; 5; 3].
Proof.
  destruct (url_chunks_partition Fixtures.twenty_three_urls 5) as [_ Hexample];
    [by vm_compute|lia|].
  destruct (Hexample eq_refl Fixtures.twenty_three_urls eq_refl)
    as (batch & chunks & Hread & _ & Hbatch & Hchunks & Hsizes).
  exists batch, chunks. split; [exact Hread|]. split; [|done].
  apply Hbatch.
  refine (bool_decide_unpack
            (Forall (λ url, has_line_break url = false ∧ strip url = url)
                    Fixtures.twenty_three_urls) _).
  by vm_compute.
Defined.

(** C3 as stated fails: the number of chunks is not always the number of
    workers.  Six URLs and four workers give three chunks of two URLs, not
    four chunks with the last one smaller or empty. *)
Lemma url_chunks_count_counterexample :
  url_chunks ["a"; "b"; "c"; "d"; "e"; "f"] 4
    = Ok [["a"; "b"]; ["c"; "d"]; ["e"; "f"]]
  ∧ length [["a"; "b"]; ["c"; "d"]; ["e"; "f"]] ≠ 4.
Proof. split; [by vm_compute|]. simpl. lia. Qed.

(** ** The worker threads: invariant of the counters *)

Lemma sum_list_with_insert {A} (f : A → nat) (l : list A) (i : nat) (x y : A) :
  l !! i = Some x →
  sum_list_with f (<[i := y]> l) + f x = sum_list_with f l + f y.
Proof.
  revert i. induction l as [|z l IH]; intros [|i] Hi; simplify_eq/=; [lia|].
  specialize (IH i Hi). lia.
Qed.

Lemma sum_list_with_spawn (chunks : list (list string)) :
  sum_list_with counting (map spawn chunks) = 0
  ∧ sum_list_with (λ wk, length (scraped_listings wk)) (map spawn chunks) = 0
  ∧ sum_list_with (λ wk, length (scraped_listings wk) + length (pending wk))
      (map spawn chunks) = length (concat chunks).
Proof.
  induction chunks as [|chunk chunks (IH1 & IH2 & IH3)]; [done|].
  simpl. rewrite IH1, IH2, IH3, length_app. unfold counting. simpl. lia.
Qed.

Lemma records_of_snoc (cfg : config) (done_urls : list string) (url : string) :
  let d := get_listing_details (the_web cfg) url
             (div_class_mapping cfg) (label_mapping cfg) in
  records_of cfg (done_urls ++ [url])
    = (records_of cfg done_urls ++ (if bool_decide (d ≠ ∅) then [d] else []))%list.
Proof.
  intros d. unfold records_of. rewrite map_app, filter_app. f_equal.
  simpl. fold d. rewrite filter_cons, filter_nil.
  destruct (decide (d ≠ ∅)) as [Hd|Hd].
  - by rewrite bool_decide_true.
  - by rewrite bool_decide_false.
Qed.

Lemma fetch_one_spec (cfg : config) (wk wk' : worker) :
  fetch_one cfg wk = Some wk' →
  ∃ url rest,
    at_pc wk = AtFetch ∧ pending wk = url :: rest
    ∧ url_chunk wk' = url_chunk wk ∧ pending wk' = rest
    ∧ let d := get_listing_details (the_web cfg) url
                 (div_class_mapping cfg) (label_mapping cfg) in
      (d ≠ ∅ ∧ scraped_listings wk' = (scraped_listings wk ++ [d])%list
         ∧ at_pc wk' = AtCount)
      ∨ (d = ∅ ∧ scraped_listings wk' = scraped_listings wk ∧ at_pc wk' = AtFetch).
Proof.
  unfold fetch_one. destruct (at_pc wk) eqn:Hpc; try done.
  destruct (pending wk) as [|url rest] eqn:Hpending; [done|].
  intros Hwk'. exists url, rest. split; [done|]. split; [done|].
  case_bool_decide as Hd; injection Hwk' as <-; simpl.
  - split; [done|]. split; [done|]. by left.
  - split; [done|]. split; [done|]. right. split; [|done].
    by destruct (decide (get_listing_details (the_web cfg) url
                           (div_class_mapping cfg) (label_mapping cfg) = ∅)).
Qed.

Lemma step_invariant (cfg : config) (ev : event) (s s' : state) :
  invariant cfg s → step cfg ev s = Some s' → invariant cfg s'.
Proof.
  intros (Hcount & Hurls & Htotal & Hworkers) Hstep.
  destruct ev as [|i|i|i timestamp]; simpl in Hstep.
  - (* NextBatch *)
    destruct (total_batches cfg) as [tb|]; [|done].
    destruct (bool_decide (batch_no s < tb) && forallb has_returned (workers s));
      [|done].
    destruct (read_batch _ _ _ _) as [batch_urls|] eqn:Hread; [|done].
    destruct (url_chunks batch_urls (num_workers cfg)) as [chunks|] eqn:Hchunks;
      [|done].
    injection Hstep as <-. unfold invariant. simpl.
    destruct (sum_list_with_spawn chunks) as (H1 & H2 & H3).
    rewrite !sum_list_with_app, H1, H2, H3.
    rewrite (url_chunks_concat _ _ _ Hchunks).
    apply read_batch_length in Hread.
    split; [lia|]. split; [lia|]. split; [lia|].
    apply Forall_app. split; [done|].
    apply Forall_map, Forall_forall. intros chunk _. by exists [].
  - (* Fetch *)
    destruct (workers s !! i) as [wk|] eqn:Hi; [|done]. simpl in Hstep.
    destruct (fetch_one cfg wk) as [wk'|] eqn:Hfetch; [|done]. simpl in Hstep.
    injection Hstep as <-. unfold invariant. simpl.
    apply fetch_one_spec in Hfetch
      as (url & rest & Hpc & Hpending & Hchunk & Hrest & Hd).
    destruct wk' as [chunk' pending' scraped' pc'].
    simpl in Hchunk, Hrest, Hd. subst chunk' pending'.
    set (wk' := {| url_chunk := url_chunk wk; pending := rest;
                   scraped_listings := scraped'; at_pc := pc' |}).
    pose proof (sum_list_with_insert counting _ i wk wk' Hi) as H1.
    pose proof (sum_list_with_insert (λ wk, length (scraped_listings wk)) _ i wk wk' Hi)
      as H2.
    pose proof (sum_list_with_insert
                  (λ wk, length (scraped_listings wk) + length (pending wk))
                  _ i wk wk' Hi) as H3.
    assert (counting wk = 0) as Hc by (unfold counting; by rewrite Hpc).
    assert (counting wk' = match pc' with AtCount => 1 | _ => 0 end) as Hc' by done.
    simpl in H2, H3. rewrite Hpending in H3. simpl in H3.
    apply (Forall_lookup_1 _ _ _ _ Hworkers) in Hi as (done_urls & Hsplit & Hrec & _).
    assert (worker_ok cfg wk') as Hwk'.
    { exists (done_urls ++ [url])%list. simpl.
      split; [by rewrite Hsplit, Hpending, <-app_assoc|].
      rewrite records_of_snoc. simpl.
      destruct Hd as [(Hd & -> & ->)|(Hd & -> & ->)].
      - rewrite bool_decide_true by done. by rewrite Hrec.
      - rewrite bool_decide_false by (by rewrite Hd; intros []).
        by rewrite (right_id_L [] (++)), Hrec. }
    destruct Hd as [(_ & -> & ->)|(_ & -> & ->)]; rewrite ?length_app in *;
      simpl in *.
    + split; [lia|]. split; [lia|]. split; [done|]. by apply Forall_insert.
    + split; [lia|]. split; [lia|]. split; [done|]. by apply Forall_insert.
  - (* Count *)
    destruct (workers s !! i) as [wk|] eqn:Hi; [|done]. simpl in Hstep.
    destruct (at_pc wk) eqn:Hpc; try done.
    injection Hstep as <-. unfold invariant. simpl.
    set (wk' := {| url_chunk := url_chunk wk; pending := pending wk;
                   scraped_listings := scraped_listings wk; at_pc := AtFetch |}).
    pose proof (sum_list_with_insert counting _ i wk wk' Hi) as H1.
    pose proof (sum_list_with_insert (λ wk, length (scraped_listings wk)) _ i wk wk' Hi)
      as H2.
    pose proof (sum_list_with_insert
                  (λ wk, length (scraped_listings wk) + length (pending wk))
                  _ i wk wk' Hi) as H3.
    assert (counting wk = 1) as Hc by (unfold counting; by rewrite Hpc).
    assert (counting wk' = 0) as Hc' by done.
    simpl in H2, H3.
    split; [lia|]. split; [lia|]. split; [done|].
    apply Forall_insert; [done|].
    apply (Forall_lookup_1 _ _ _ _ Hworkers) in Hi as (done_urls & Hsplit & Hrec & _).
    exists done_urls. by simpl.
  - (* Save *)
    destruct (workers s !! i) as [wk|] eqn:Hi; [|done]. simpl in Hstep.
    destruct (at_pc wk) eqn:Hpc; try done.
    destruct (pending wk) as [|url rest] eqn:Hpending; [|done].
    injection Hstep as <-. unfold invariant. simpl.
    set (wk' := {| url_chunk := url_chunk wk; pending := [];
                   scraped_listings := scraped_listings wk; at_pc := Returned |}).
    pose proof (sum_list_with_insert counting _ i wk wk' Hi) as H1.
    pose proof (sum_list_with_insert (λ wk, length (scraped_listings wk)) _ i wk wk' Hi)
      as H2.
    pose proof (sum_list_with_insert
                  (λ wk, length (scraped_listings wk) + length (pending wk))
                  _ i wk wk' Hi) as H3.
    assert (counting wk = 0) as Hc by (unfold counting; by rewrite Hpc).
    assert (counting wk' = 0) as Hc' by done.
    simpl in H2, H3. rewrite Hpending in H3. simpl in H3.
    split; [lia|]. split; [lia|]. split; [done|].
    apply Forall_insert; [done|].
    apply (Forall_lookup_1 _ _ _ _ Hworkers) in Hi as (done_urls & Hsplit & Hrec & _).
    exists done_urls. simpl. by rewrite <-Hpending.
Qed.

Lemma init_invariant (cfg : config) : invariant cfg init.
Proof. unfold invariant. simpl. repeat split; [lia..|constructor]. Qed.

Lemma run_invariant (cfg : config) (evs : list event) (s s' : state) :
  invariant cfg s → run cfg evs s = Some s' → invariant cfg s'.
Proof.
  revert s. induction evs as [|ev evs IH]; intros s Hinv Hrun; simpl in Hrun.
  - by injection Hrun as <-.
  - destruct (step cfg ev s) as [s1|] eqn:Hstep; [|done]. simpl in Hrun.
    eapply IH; [|exact Hrun]. by eapply step_invariant.
Qed.

Lemma sum_list_with_add {A} (f g : A → nat) (l : list A) :
  sum_list_with (λ x, f x + g x) l = sum_list_with f l + sum_list_with g l.
Proof. induction l as [|x l IH]; simpl; lia. Qed.

Lemma sum_counting_returned (ws : list worker) :
  Forall (λ wk, at_pc wk = Returned) ws → sum_list_with counting ws = 0.
Proof.
  induction 1 as [|wk ws Hwk _ IH]; [done|].
  simpl. unfold counting at 1. by rewrite Hwk, IH.
Qed.

(** C5: in every state the scheduler can reach, under every interleaving of
    the workers, [listings_scraped] is at most [urls_processed], and at
    most [total_urls]; once the run is over, every worker holds exactly the
    non-empty records of the URLs of its chunk and [listings_scraped] is
    the number of records held by all the workers together. *)
Theorem listings_scraped_bounded (cfg : config) (evs : list event) (s : state) :
  run cfg evs init = Some s →
  listings_scraped s ≤ urls_processed s
  ∧ listings_scraped s ≤ total_urls cfg
  ∧ (finished cfg s →
       listings_scraped s
         = sum_list_with (λ wk, length (scraped_listings wk)) (workers s)
       ∧ Forall (λ wk, scraped_listings wk = records_of cfg (url_chunk wk)
                       ∧ Forall (λ d, d ≠ ∅) (scraped_listings wk)) (workers s)).
Proof.
  intros Hrun.
  destruct (run_invariant cfg evs init s (init_invariant cfg) Hrun)
    as (Hcount & Hurls & Htotal & Hworkers).
  rewrite sum_list_with_add in Hurls.
  split; [lia|]. split; [lia|].
  intros [_ Hreturned]. split.
  - rewrite sum_counting_returned in Hcount by done. lia.
  - apply Forall_forall. intros wk Hwk.
    apply (proj1 (Forall_forall _ _) Hworkers) in Hwk as Hok.
    apply (proj1 (Forall_forall _ _) Hreturned) in Hwk as Hpc.
    destruct Hok as (done_urls & Hsplit & Hrec & Hend).
    rewrite (Hend Hpc), (right_id_L [] (++)) in Hsplit. subst done_urls.
    split; [done|]. rewrite Hrec. unfold records_of.
    apply Forall_forall. intros d Hd. by apply list_elem_of_filter in Hd as [Hd _].
Qed.

Lemma listings_scraped_bounded_witness :
  ∃ s, run Fixtures.small_run Fixtures.small_schedule init = Some s
       ∧ finished Fixtures.small_run s
       ∧ urls_processed s = 2
       ∧ listings_scraped s = 1
       ∧ listings_scraped s ≤ urls_processed s.
Proof.
  eexists. split; [by vm_compute|].
  split; [split; [by vm_compute|repeat constructor]|].
  split; [by vm_compute|]. split; [by vm_compute|].
  eapply (listings_scraped_bounded Fixtures.small_run Fixtures.small_schedule).
  by vm_compute.
Defined.

(** ** The worker threads: a worker always reaches the end of its chunk *)

Lemma run_app (cfg : config) (evs1 evs2 : list event) (s : state) :
  run cfg (evs1 ++ evs2) s = run cfg evs1 s ≫= run cfg evs2.
Proof.
  revert s. induction evs1 as [|ev evs1 IH]; intros s; simpl; [done|].
  destruct (step cfg ev s) as [s1|]; simpl; [apply IH|done].
Qed.

Lemma records_of_cons (cfg : config) (url : string) (rest : list string) :
  let d := get_listing_details (the_web cfg) url
             (div_class_mapping cfg) (label_mapping cfg) in
  records_of cfg (url :: rest)
    = ((if bool_decide (d ≠ ∅) then [d] else []) ++ records_of cfg rest)%list.
Proof.
  intros d. unfold records_of. simpl. fold d. rewrite filter_cons.
  destruct (decide (d ≠ ∅)) as [Hd|Hd].
  - by rewrite bool_decide_true.
  - by rewrite bool_decide_false.
Qed.

Lemma worker_runs_to_end (cfg : config) (rest : list string) :
  ∀ (s : state) (i : nat) (wk : worker),
    workers s !! i = Some wk → at_pc wk = AtFetch → pending wk = rest →
    ∃ evs s',
      run cfg evs s = Some s'
      ∧ workers s' =
          <[i := {| url_chunk := url_chunk wk; pending := [];
                    scraped_listings :=
                      (scraped_listings wk ++ records_of cfg rest)%list;
                    at_pc := AtFetch |}]> (workers s)
      ∧ listings_scraped s' = listings_scraped s + length (records_of cfg rest)
      ∧ urls_processed s' = urls_processed s
      ∧ batch_no s' = batch_no s
      ∧ output_dir s' = output_dir s.
Proof.
  induction rest as [|url rest IH]; intros s i wk Hi Hpc Hpending.
  - exists [], s. split; [done|]. split; [|by simpl; rewrite Nat.add_0_r].
    symmetry. apply list_insert_id. rewrite Hi. f_equal.
    destruct wk as [chunk pend scraped pc]. simpl in *. subst.
    change (records_of cfg []) with (@nil details).
    by rewrite (right_id_L [] (++)).
  - set (d := get_listing_details (the_web cfg) url
                (div_class_mapping cfg) (label_mapping cfg)).
    pose proof (lookup_lt_Some _ _ _ Hi) as Hlt.
    destruct (decide (d ≠ ∅)) as [Hd|Hd].
    + set (wk1 := {| url_chunk := url_chunk wk; pending := rest;
                     scraped_listings := (scraped_listings wk ++ [d])%list;
                     at_pc := AtCount |}).
      set (wk2 := {| url_chunk := url_chunk wk; pending := rest;
                     scraped_listings := (scraped_listings wk ++ [d])%list;
                     at_pc := AtFetch |}).
      set (s2 := {| urls_processed := urls_processed s;
                    listings_scraped := S (listings_scraped s);
                    batch_no := batch_no s;
                    workers := <[i := wk2]> (workers s);
                    output_dir := output_dir s |}).
      assert (run cfg [Fetch i; Count i] s = Some s2) as Hrun.
      { simpl. rewrite Hi. simpl. unfold fetch_one. rewrite Hpc, Hpending.
        fold d. rewrite bool_decide_true by done. simpl.
        rewrite list_lookup_insert_eq by done. simpl.
        unfold s2. by rewrite list_insert_insert_eq. }
      destruct (IH s2 i wk2) as (evs & s' & Hrun' & Hws & Hls & Hup & Hbn & Hout);
        [by apply list_lookup_insert_eq|done|done|].
      exists ([Fetch i; Count i] ++ evs)%list, s'.
      rewrite run_app, Hrun. simpl. split; [done|].
      rewrite Hws, Hls, Hup, Hbn, Hout. simpl.
      rewrite list_insert_insert_eq, records_of_cons. fold d.
      rewrite bool_decide_true by done. simpl.
      rewrite <-app_assoc. simpl. repeat split; done || lia.
    + set (wk1 := {| url_chunk := url_chunk wk; pending := rest;
                     scraped_listings := scraped_listings wk;
                     at_pc := AtFetch |}).
      assert (run cfg [Fetch i] s = Some (set_worker s i wk1)) as Hrun.
      { simpl. rewrite Hi. simpl. unfold fetch_one. rewrite Hpc, Hpending.
        fold d. by rewrite bool_decide_false. }
      destruct (IH (set_worker s i wk1) i wk1)
        as (evs & s' & Hrun' & Hws & Hls & Hup & Hbn & Hout);
        [by apply list_lookup_insert_eq|done|done|].
      exists ([Fetch i] ++ evs)%list, s'.
      rewrite run_app, Hrun. simpl. split; [done|].
      rewrite Hws, Hls, Hup, Hbn, Hout. simpl.
      rewrite list_insert_insert_eq, records_of_cons. fold d.
      rewrite bool_decide_false by done. done.
Qed.

(** ** The output directory *)

(** Only a save of a worker that holds records touches the output
    directory, and it writes one file, named by the batch and the
    timestamp. *)
Lemma step_output_dir (cfg : config) (ev : event) (s s' : state) :
  step cfg ev s = Some s' →
  output_dir s' = output_dir s
  ∨ ∃ i timestamp wk,
      ev = Save i timestamp ∧ workers s !! i = Some wk
      ∧ scraped_listings wk ≠ []
      ∧ output_dir s' =
          <[output_file (batch_no s) timestamp := scraped_listings wk]> (output_dir s).
Proof.
  intros Hstep. destruct ev as [|i|i|i timestamp]; simpl in Hstep.
  - destruct (total_batches cfg); [|done].
    destruct (_ && _); [|done].
    destruct (read_batch _ _ _ _); [|done].
    destruct (url_chunks _ _); [|done].
    injection Hstep as <-. by left.
  - destruct (workers s !! i) as [wk|]; [|done]. simpl in Hstep.
    destruct (fetch_one cfg wk); [|done]. injection Hstep as <-. by left.
  - destruct (workers s !! i) as [wk|]; [|done]. simpl in Hstep.
    destruct (at_pc wk); try done. injection Hstep as <-. by left.
  - destruct (workers s !! i) as [wk|] eqn:Hi; [|done]. simpl in Hstep.
    destruct (at_pc wk); try done. destruct (pending wk); [|done].
    injection Hstep as <-. simpl.
    destruct (scraped_listings wk) as [|d ds] eqn:Hscraped; [by left|].
    right. exists i, timestamp, wk. by rewrite Hscraped.
Qed.

(** C7, the failing run: two workers of one batch each scrape one listing
    and read the same second off the clock when they save.  The run ends
    with both workers holding a record and one CSV file in the output
    directory: the second [to_csv] wrote over the file of the first.  With
    the saves one second apart the same run leaves two files. *)
Theorem same_second_overwrites :
  (∃ s, run Fixtures.good_run Fixtures.same_second_schedule init = Some s
        ∧ finished Fixtures.good_run s
        ∧ map (λ wk, length (scraped_listings wk)) (workers s) = [1; 1]
        ∧ dom (output_dir s) = {[ "apartments_batch_1_20250101_120000.csv" ]}
        ∧ size (output_dir s) = 1)
  ∧ (∃ s, run Fixtures.good_run Fixtures.next_second_schedule init = Some s
          ∧ finished Fixtures.good_run s
          ∧ map (λ wk, length (scraped_listings wk)) (workers s) = [1; 1]
          ∧ size (output_dir s) = 2).
Proof.
  split.
  - eexists. split; [by vm_compute|].
    split; [split; [by vm_compute|repeat constructor]|].
    split; [by vm_compute|]. split; by vm_compute.
  - eexists. split; [by vm_compute|].
    split; [split; [by vm_compute|repeat constructor]|].
    split; by vm_compute.
Qed.

(** ** The run is never stuck *)

Lemma forallb_false_lookup {A} (f : A → bool) (l : list A) :
  forallb f l = false → ∃ i x, l !! i = Some x ∧ f x = false.
Proof.
  induction l as [|y l IH]; simpl; [done|].
  destruct (f y) eqn:Hy; simpl.
  - intros H. destruct (IH H) as (i & x & Hi & Hx). by exists (S i), x.
  - intros _. by exists 0, y.
Qed.

Lemma step_position (cfg : config) (ev : event) (s s' : state) :
  position_ok cfg s → step cfg ev s = Some s' → position_ok cfg s'.
Proof.
  intros [Hle Hup] Hstep. unfold position_ok.
  destruct ev as [|i|i|i timestamp]; simpl in Hstep.
  - unfold total_batches, math_ceil_div in Hstep.
    destruct (batch_size cfg =? 0); [done|].
    case_bool_decide as Hlt; simpl in Hstep; [|done].
    destruct (forallb has_returned (workers s)); [|done].
    destruct (read_batch _ _ _ _) as [batch_urls|] eqn:Hread; [|done].
    destruct (url_chunks _ _); [|done].
    injection Hstep as <-. simpl. apply read_batch_length in Hread.
    split; [lia|]. rewrite Hread, Hup. lia.
  - destruct (workers s !! i) as [wk|]; [|done]. simpl in Hstep.
    destruct (fetch_one cfg wk); [|done]. by injection Hstep as <-.
  - destruct (workers s !! i) as [wk|]; [|done]. simpl in Hstep.
    destruct (at_pc wk); try done. by injection Hstep as <-.
  - destruct (workers s !! i) as [wk|]; [|done]. simpl in Hstep.
    destruct (at_pc wk); try done. destruct (pending wk); [|done].
    by injection Hstep as <-.
Qed.

Lemma run_position (cfg : config) (evs : list event) (s s' : state) :
  position_ok cfg s → run cfg evs s = Some s' → position_ok cfg s'.
Proof.
  revert s. induction evs as [|ev evs IH]; intros s Hpos Hrun; simpl in Hrun.
  - by injection Hrun as <-.
  - destruct (step cfg ev s) as [s1|] eqn:Hstep; [|done]. simpl in Hrun.
    eapply IH; [|exact Hrun]. by eapply step_position.
Qed.

(** From a state in which the position in the file is right, the run is
    over or some thread can take a step, whatever the fetches return. *)
Lemma step_enabled (cfg : config) (s : state) :
  1 ≤ num_workers cfg →
  total_urls cfg ≤ length (open_lines (urls_file cfg)) →
  position_ok cfg s →
  finished cfg s ∨ ∃ ev s', step cfg ev s = Some s'.
Proof.
  intros Hnw Hlines [Hle Hup].
  assert (0 < batch_size cfg) as Hbs by (unfold batch_size; lia).
  assert (total_batches cfg = Ok (ceil_div (total_urls cfg) (batch_size cfg))) as Htb.
  { unfold total_batches, math_ceil_div. by destruct (Nat.eqb_spec (batch_size cfg) 0); [lia|]. }
  destruct (forallb has_returned (workers s)) eqn:Hall.
  - destruct (decide (batch_no s = ceil_div (total_urls cfg) (batch_size cfg)))
      as [Heq|Hne].
    + left. split; [by rewrite Heq|].
      apply Forall_forall. intros wk Hwk.
      apply list_elem_of_In in Hwk.
      pose proof (proj1 (forallb_forall _ _) Hall wk Hwk) as Hret.
      unfold has_returned in Hret. by destruct (at_pc wk).
    + right. exists NextBatch. simpl. rewrite Htb, Hall.
      rewrite bool_decide_true by lia. simpl.
      destruct (ceil_div_bounds (total_urls cfg) (batch_size cfg) Hbs) as [_ Hlast].
      assert (0 < total_urls cfg) as Hpos.
      { destruct (decide (total_urls cfg = 0)) as [H0|]; [|lia].
        rewrite H0, ceil_div_0 in Hle, Hne by done. lia. }
      destruct (Hlast Hpos) as [Hlast' _].
      assert (batch_no s * batch_size cfg < total_urls cfg) as Hbefore by nia.
      destruct (read_batch_succeeds (urls_file cfg) (urls_processed s)
                  (batch_size cfg) (total_urls cfg)) as [batch_urls Hread];
        [done|lia|].
      rewrite Hread. pose proof (read_batch_length _ _ _ _ _ Hread) as Hlen.
      destruct (url_chunks_Ok batch_urls (num_workers cfg)) as [_ Hchunks];
        [|done|].
      { intros ->. simpl in Hlen. lia. }
      rewrite Hchunks. eauto.
  - right. apply forallb_false_lookup in Hall as (i & wk & Hi & Hret).
    unfold has_returned in Hret.
    destruct (at_pc wk) eqn:Hpc; [| |done].
    + destruct (pending wk) as [|url rest] eqn:Hpending.
      * exists (Save i ""). simpl. rewrite Hi. simpl. rewrite Hpc, Hpending. eauto.
      * exists (Fetch i). simpl. rewrite Hi. simpl.
        unfold fetch_one. rewrite Hpc, Hpending. case_bool_decide; simpl; eauto.
    + exists (Count i). simpl. rewrite Hi. simpl. rewrite Hpc. eauto.
Qed.

Lemma init_position (cfg : config) : position_ok cfg init.
Proof. unfold position_ok. simpl. lia. Qed.

Lemma scrape_config_lines (w : web) (base_url : string)
    (div_class_mapping label_mapping : gmap string string) (num_pages num_workers : nat) :
  let cfg := scrape_config w base_url div_class_mapping label_mapping
               num_pages num_workers in
  total_urls cfg ≤ length (open_lines (urls_file cfg)).
Proof. simpl. apply open_lines_count. Qed.

(** ** Every run comes to its end *)

Lemma url_chunks_length (batch_urls : list string) (num_workers : nat)
    (chunks : list (list string)) :
  url_chunks batch_urls num_workers = Ok chunks → length chunks ≤ num_workers.
Proof.
  unfold url_chunks, math_ceil_div, range_step.
  destruct (Nat.eqb_spec num_workers 0) as [|Hnw]; [done|]. simpl.
  destruct (Nat.eqb_spec (ceil_div (length batch_urls) num_workers) 0) as [|Hupw];
    [done|]. simpl.
  intros [= <-]. rewrite !length_map, length_seq.
  apply ceil_div_le; [lia|].
  destruct (ceil_div_bounds (length batch_urls) num_workers) as [Hcover _]; [lia|].
  lia.
Qed.

Lemma worker_steps_spawn (chunks : list (list string)) :
  sum_list_with worker_steps (map spawn chunks)
    = 2 * length (concat chunks) + length chunks.
Proof.
  induction chunks as [|chunk chunks IH]; [done|].
  simpl. rewrite IH, length_app. unfold worker_steps. simpl. lia.
Qed.

Lemma step_steps_left (cfg : config) (ev : event) (s s' : state) :
  step cfg ev s = Some s' → steps_left cfg s' < steps_left cfg s.
Proof.
  intros Hstep. unfold steps_left.
  destruct ev as [|i|i|i timestamp]; simpl in Hstep.
  - unfold total_batches, math_ceil_div in Hstep.
    destruct (batch_size cfg =? 0); [done|].
    case_bool_decide as Hlt; simpl in Hstep; [|done].
    destruct (forallb has_returned (workers s)); [|done].
    destruct (read_batch _ _ _ _) as [batch_urls|] eqn:Hread; [|done].
    destruct (url_chunks _ _) as [chunks|] eqn:Hchunks; [|done].
    injection Hstep as <-. simpl.
    rewrite sum_list_with_app, worker_steps_spawn.
    rewrite (url_chunks_concat _ _ _ Hchunks).
    apply url_chunks_length in Hchunks. apply read_batch_length in Hread.
    set (tb := ceil_div (total_urls cfg) (batch_size cfg)) in *.
    replace (tb - batch_no s) with (S (tb - S (batch_no s))) by lia.
    lia.
  - destruct (workers s !! i) as [wk|] eqn:Hi; [|done]. simpl in Hstep.
    destruct (fetch_one cfg wk) as [wk'|] eqn:Hfetch; [|done].
    injection Hstep as <-. simpl.
    apply fetch_one_spec in Hfetch
      as (url & rest & Hpc & Hpending & _ & Hrest & Hd).
    pose proof (sum_list_with_insert worker_steps _ i wk wk' Hi) as Hsum.
    assert (worker_steps wk' < worker_steps wk); [|lia].
    unfold worker_steps. rewrite Hpc, Hpending, Hrest. simpl.
    destruct Hd as [(_ & _ & ->)|(_ & _ & ->)]; lia.
  - destruct (workers s !! i) as [wk|] eqn:Hi; [|done]. simpl in Hstep.
    destruct (at_pc wk) eqn:Hpc; try done.
    injection Hstep as <-. simpl.
    match goal with |- context [<[i := ?w]> _] => set (wk' := w) end.
    pose proof (sum_list_with_insert worker_steps _ i wk wk' Hi) as Hsum.
    assert (worker_steps wk' < worker_steps wk); [|lia].
    unfold worker_steps, wk'. rewrite Hpc. simpl. lia.
  - destruct (workers s !! i) as [wk|] eqn:Hi; [|done]. simpl in Hstep.
    destruct (at_pc wk) eqn:Hpc; try done.
    destruct (pending wk) eqn:Hpending; [|done].
    injection Hstep as <-. simpl.
    match goal with |- context [<[i := ?w]> _] => set (wk' := w) end.
    pose proof (sum_list_with_insert worker_steps _ i wk wk' Hi) as Hsum.
    assert (worker_steps wk' < worker_steps wk); [|lia].
    unfold worker_steps, wk'. rewrite Hpc, Hpending. simpl. lia.
Qed.

(** No schedule is longer than the bound of the state it starts from. *)
Lemma run_steps_left (cfg : config) (evs : list event) (s s' : state) :
  run cfg evs s = Some s' → length evs + steps_left cfg s' ≤ steps_left cfg s.
Proof.
  revert s. induction evs as [|ev evs IH]; intros s Hrun; simpl in Hrun.
  - injection Hrun as <-. simpl. lia.
  - destruct (step cfg ev s) as [s1|] eqn:Hstep; [|done]. simpl in Hrun.
    apply step_steps_left in Hstep. apply IH in Hrun. simpl. lia.
Qed.

(** From a state in which the position in the file is right, the run can
    be continued to its end. *)
Lemma run_can_finish (cfg : config) (s : state) :
  1 ≤ num_workers cfg →
  total_urls cfg ≤ length (open_lines (urls_file cfg)) →
  position_ok cfg s →
  ∃ evs s', run cfg evs s = Some s' ∧ finished cfg s'.
Proof.
  intros Hnw Hlines.
  remember (S (steps_left cfg s)) as n eqn:Hn.
  assert (steps_left cfg s < n) as Hlt by lia. clear Hn.
  revert s Hlt. induction n as [|n IH]; intros s Hlt Hpos; [lia|].
  destruct (step_enabled cfg s Hnw Hlines Hpos) as [Hfin|(ev & s1 & Hstep)].
  - by exists [], s.
  - destruct (IH s1) as (evs & s' & Hrun & Hfin).
    + apply step_steps_left in Hstep. lia.
    + by eapply step_position.
    + exists (ev :: evs), s'. simpl. rewrite Hstep. done.
Qed.

(** ** Failures *)

Lemma get_listing_details_empty (w : web) (listing_url : string)
    (div_class_mapping label_mapping : gmap string string) :
  get_listing_details w listing_url div_class_mapping label_mapping = ∅
  ↔ ∃ e, get_listing_details_try w listing_url div_class_mapping label_mapping
         = Raise e.
Proof.
  unfold get_listing_details.
  destruct (get_listing_details_try w listing_url div_class_mapping label_mapping)
    as [d|e] eqn:Htry.
  - split.
    + intros ->. by apply get_listing_details_try_nonempty in Htry.
    + by intros [e He].
  - split; [by exists e|done].
Qed.

Lemma elem_of_collect_urls (w : web) (base_url : string) (num_pages : nat)
    (url : string) :
  url ∈ collect_urls w base_url num_pages
  ↔ ∃ page, 1 ≤ page ≤ num_pages
            ∧ url ∈ get_listings_page w (page_url base_url page).
Proof.
  unfold collect_urls. rewrite list_elem_of_In, in_flat_map. split.
  - intros (page & Hpage & Hurl). exists page.
    apply in_seq in Hpage. split; [lia|]. by apply list_elem_of_In.
  - intros (page & Hpage & Hurl). exists page.
    split; [apply in_seq; lia|]. by apply list_elem_of_In.
Qed.

(** C6: failures end where they occur.  [get_listings_page] returns the
    empty list whenever its [try] block raises, and whenever the page has
    no anchor with the listing-item marker; [get_listing_details] returns
    the empty record exactly when its [try] block raises; the URLs of every
    page are collected whatever happened on the other pages; a worker whose
    fetch gave the empty record appends nothing, counts nothing and goes on
    with the rest of its chunk, and so reaches the end of its chunk
    whatever the fetches return; and a run is never stuck: in every state
    it can reach, it is over or some thread can take its next step, no
    schedule is longer than a bound fixed by the URL file, and the run can
    be continued to its end. *)
Theorem failures_never_propagate :
  (∀ (w : web) page_url e,
     get_listings_page_try w page_url = Raise e → get_listings_page w page_url = [])
  ∧ (∀ (w : web) page_url,
       (∀ r soup, requests_get w page_url = Ok r →
                  raise_for_status r = Ok tt →
                  html_parser w (response_text r) = Ok soup →
                  find_all_tag_attr "a" "data-cy" "listing-item-link" soup = []) →
       get_listings_page w page_url = [])
  ∧ (∀ (w : web) listing_url div_class_mapping label_mapping,
       get_listing_details w listing_url div_class_mapping label_mapping = ∅
       ↔ ∃ e, get_listing_details_try w listing_url div_class_mapping label_mapping
              = Raise e)
  ∧ (∀ (w : web) base_url num_pages page url,
       1 ≤ page ≤ num_pages →
       url ∈ get_listings_page w (page_url base_url page) →
       url ∈ collect_urls w base_url num_pages)
  ∧ (∀ (cfg : config) s i wk url rest,
       workers s !! i = Some wk → at_pc wk = AtFetch → pending wk = url :: rest →
       get_listing_details (the_web cfg) url (div_class_mapping cfg) (label_mapping cfg)
         = ∅ →
       step cfg (Fetch i) s =
         Some (set_worker s i {| url_chunk := url_chunk wk; pending := rest;
                                 scraped_listings := scraped_listings wk;
                                 at_pc := AtFetch |}))
  ∧ (∀ (cfg : config) s i wk,
       workers s !! i = Some wk → at_pc wk = AtFetch →
       ∃ evs s',
         run cfg evs s = Some s'
         ∧ workers s' !! i =
             Some {| url_chunk := url_chunk wk; pending := [];
                     scraped_listings :=
                       (scraped_listings wk ++ records_of cfg (pending wk))%list;
                     at_pc := AtFetch |}
         ∧ listings_scraped s'
           = listings_scraped s + length (records_of cfg (pending wk)))
  ∧ (∀ (w : web) base_url div_class_mapping label_mapping num_pages num_workers evs s,
       1 ≤ num_workers →
       let cfg := scrape_config w base_url div_class_mapping label_mapping
                    num_pages num_workers in
       run cfg evs init = Some s →
       (finished cfg s ∨ ∃ ev s', step cfg ev s = Some s')
       ∧ length evs ≤ steps_left cfg init
       ∧ ∃ evs' s', run cfg evs' s = Some s' ∧ finished cfg s').
Proof.
  split; [exact get_listings_page_raise|].
  split; [exact get_listings_page_no_marker|].
  split; [exact get_listing_details_empty|].
  split.
  { intros w base_url num_pages page url Hpage Hurl.
    apply elem_of_collect_urls. by exists page. }
  split.
  { intros cfg s i wk url rest Hi Hpc Hpending Hempty. simpl.
    rewrite Hi. simpl. unfold fetch_one. rewrite Hpc, Hpending, Hempty.
    by rewrite bool_decide_false by (by intros []). }
  split.
  { intros cfg s i wk Hi Hpc.
    destruct (worker_runs_to_end cfg (pending wk) s i wk Hi Hpc eq_refl)
      as (evs & s' & Hrun & Hws & Hls & _).
    exists evs, s'. split; [done|]. split; [|done].
    rewrite Hws. apply list_lookup_insert_eq. by eapply lookup_lt_Some. }
  intros w base_url div_class_mapping label_mapping num_pages num_workers evs s
         Hnw cfg Hrun.
  assert (position_ok cfg s) as Hpos
    by (eapply run_position; [apply init_position|exact Hrun]).
  split; [|split].
  - apply step_enabled; [done|apply scrape_config_lines|done].
  - apply run_steps_left in Hrun. lia.
  - apply run_can_finish; [done|apply scrape_config_lines|done].
Qed.

Lemma failures_never_propagate_witness :
  get_listings_page Fixtures.dead_site "search" = []
  ∧ get_listing_details Fixtures.site "https://www.otodom.pl/y" ∅ ∅ = ∅
  ∧ "https://www.otodom.pl/x" ∈ collect_urls Fixtures.site "search" 2.
Proof.
  destruct failures_never_propagate as (Hpage & _ & Hdetails & Hcollect & _).
  split; [|split].
  - by apply (Hpage Fixtures.dead_site "search" ConnectionError).
  - apply Hdetails. exists HTTPError. by vm_compute.
  - apply (Hcollect Fixtures.site "search" 2 1); [lia|].
    vm_compute. left.
Defined.

(** * Further properties of the scraper *)

(** ** get_listings_page and get_listing_details: what comes back *)

Lemma comprehension_Ok {A B} (f : A → result B) (g : A → B) (l : list A) :
  Forall (λ x, f x = Ok (g x)) l → comprehension f l = Ok (map g l).
Proof.
  induction 1 as [|x l Hx _ IH]; [done|]. simpl. by rewrite Hx, IH.
Qed.

(** X1: when the search page is fetched and parsed and every anchor with the
    listing-item marker has an [href], [get_listings_page] returns one URL
    per such anchor, in document order: the site prefix followed by the
    [href]. *)
Theorem get_listings_page_links (w : web) (page_url : string)
    (r : response) (soup : node) :
  requests_get w page_url = Ok r →
  raise_for_status r = Ok tt →
  html_parser w (response_text r) = Ok soup →
  let listings := find_all_tag_attr "a" "data-cy" "listing-item-link" soup in
  Forall (λ link, is_Some (attributes link !! "href")) listings →
  get_listings_page w page_url
    = map (λ link, "https://www.otodom.pl/" ++ default "" (attributes link !! "href"))
          listings
  ∧ length (get_listings_page w page_url) = length listings.
Proof.
  intros Hget Hstatus Hparse listings Hhref.
  assert (get_listings_page w page_url
          = map (λ link, "https://www.otodom.pl/"
                         ++ default "" (attributes link !! "href")) listings) as Heq.
  { unfold get_listings_page, get_listings_page_try.
    rewrite Hget. simpl. rewrite Hstatus. simpl. rewrite Hparse. simpl.
    fold listings.
    rewrite (comprehension_Ok _
               (λ link, "https://www.otodom.pl/"
                        ++ default "" (attributes link !! "href"))); [done|].
    eapply Forall_impl; [exact Hhref|]. intros link [href Hlink].
    unfold getitem. by rewrite Hlink. }
  split; [done|]. by rewrite Heq, length_map.
Qed.

Lemma get_listings_page_links_witness :
  get_listings_page Fixtures.good_site "search"
    = ["https://www.otodom.pl/x"; "https://www.otodom.pl/y"].
Proof.
  destruct (get_listings_page_links Fixtures.good_site "search"
              {| status_code := 200; response_text := "search" |}
              Fixtures.search_page eq_refl eq_refl eq_refl) as [Heq _].
  - cbv zeta. vm_compute (find_all_tag_attr _ _ _ _).
    repeat (apply Forall_cons_2; [eexists; by vm_compute|]). apply Forall_nil_2.
  - rewrite Heq. by vm_compute.
Defined.

Lemma raise_for_status_Raise (r : response) :
  (∃ e, raise_for_status r = Raise e) ↔ 400 ≤ status_code r < 600.
Proof.
  unfold raise_for_status.
  destruct (Nat.leb_spec 400 (status_code r)) as [Hlo|Hlo],
           (Nat.ltb_spec (status_code r) 600) as [Hhi|Hhi];
    simpl; split; intros Hcase; try lia; try (by destruct Hcase); eauto.
Qed.

(** X2: [get_listing_details] returns the empty record in exactly three cases:
    the request raises, the response has a status from 400 to 599, or the
    parser raises.  A response with any other status is parsed and gives a
    record that is not empty. *)
Theorem get_listing_details_empty_causes (w : web) (listing_url : string)
    (div_class_mapping label_mapping : gmap string string) :
  get_listing_details w listing_url div_class_mapping label_mapping = ∅
  ↔ (∃ e, requests_get w listing_url = Raise e)
    ∨ (∃ r, requests_get w listing_url = Ok r
            ∧ (400 ≤ status_code r < 600
               ∨ ∃ e, html_parser w (response_text r) = Raise e)).
Proof.
  rewrite get_listing_details_empty. unfold get_listing_details_try.
  destruct (requests_get w listing_url) as [r|e] eqn:Hget; simpl.
  - destruct (raise_for_status r) as [[]|e] eqn:Hstatus; simpl.
    + assert (¬ 400 ≤ status_code r < 600) as Hcode.
      { intros Hcode. apply raise_for_status_Raise in Hcode as [e He]. congruence. }
      destruct (html_parser w (response_text r)) as [soup|e] eqn:Hparse; simpl.
      * split; [by intros [e He]|].
        intros [[e He]|(r' & [= <-] & [Hc|[e He]])]; [done|lia|congruence].
      * split; [|by eauto]. intros _. right. exists r. split; [done|]. right.
        rewrite Hparse. by exists e.
    + split; [|by eauto]. intros _. right. exists r. split; [done|]. left.
      apply raise_for_status_Raise. by exists e.
  - split; [|by eauto]. intros _. left. by exists e.
Qed.

(** ** extract_label_value_pairs: which labels are found *)

Lemma yields_label (labels : list string) (c : node) (label value : string) :
  yields labels c = Some (label, value) → label ∈ labels.
Proof.
  unfold yields. destruct (find_all_tag "p" c) as [|p0 [|p1 [|p2 ps]]]; try done.
  case_bool_decide; [|done]. by intros [= <- _].
Qed.

Lemma foldl_label_value_step_Some (labels : list string) (cs : list node)
    (results : gmap string string) (label value : string) :
  foldl (label_value_step labels) results cs !! label = Some value →
  results !! label = Some value
  ∨ ∃ c, c ∈ cs ∧ yields labels c = Some (label, value).
Proof.
  revert results. induction cs as [|c cs IH]; intros results Hfold; [by left|].
  simpl in Hfold. apply IH in Hfold as [Hstep|(c' & Hin & Hy)].
  - rewrite label_value_step_yields in Hstep.
    destruct (yields labels c) as [[l v]|] eqn:Hy; [|by left].
    destruct (decide (l = label)) as [->|Hne].
    + rewrite lookup_insert_eq in Hstep. injection Hstep as ->.
      right. exists c. split; [left|done].
    + rewrite lookup_insert_ne in Hstep by done. by left.
  - right. exists c'. split; [by right|done].
Qed.

Lemma foldl_label_value_step_is_Some (labels : list string) (cs : list node)
    (results : gmap string string) (label : string) :
  is_Some (results !! label) →
  is_Some (foldl (label_value_step labels) results cs !! label).
Proof.
  revert results. induction cs as [|c cs IH]; intros results Hsome; [done|].
  simpl. apply IH. rewrite label_value_step_yields.
  destruct (yields labels c) as [[l v]|]; [|done].
  destruct (decide (l = label)) as [->|Hne].
  - rewrite lookup_insert_eq. by eexists.
  - by rewrite lookup_insert_ne.
Qed.

Lemma extract_label_value_pairs_Some (soup : node) (labels : list string)
    (container_class : string) (label value : string) :
  extract_label_value_pairs soup labels container_class !! label = Some value →
  ∃ c, c ∈ find_all_tag_class "div" container_class soup
       ∧ yields labels c = Some (label, value).
Proof.
  unfold extract_label_value_pairs. intros Hres.
  apply foldl_label_value_step_Some in Hres as [Hempty|Hc]; [|done].
  by rewrite lookup_empty in Hempty.
Qed.

Lemma extract_label_value_pairs_is_Some (soup : node) (labels : list string)
    (container_class : string) (label : string) :
  is_Some (extract_label_value_pairs soup labels container_class !! label)
  ↔ ∃ c value, c ∈ find_all_tag_class "div" container_class soup
               ∧ yields labels c = Some (label, value).
Proof.
  split.
  - intros [value Hres].
    destruct (extract_label_value_pairs_Some _ _ _ _ _ Hres) as (c & Hin & Hy).
    by exists c, value.
  - intros (c & value & Hin & Hy).
    apply list_elem_of_split in Hin as (before & after & Hsplit).
    unfold extract_label_value_pairs.
    rewrite Hsplit, foldl_app. simpl.
    apply foldl_label_value_step_is_Some.
    rewrite label_value_step_yields, Hy, lookup_insert_eq. by eexists.
Qed.

(** X3: the map returned by [extract_label_value_pairs] has a label as key
    exactly when some container of the container class yields that label;
    its keys are among the labels to find; and each value it holds is the
    value some container yields for that label.  A page with no such
    container gives the empty map. *)
Theorem extract_label_value_pairs_keys (soup : node) (labels_to_find : list string)
    (container_class : string) :
  let results := extract_label_value_pairs soup labels_to_find container_class in
  let containers := find_all_tag_class "div" container_class soup in
  (∀ label, is_Some (results !! label)
            ↔ ∃ c value, c ∈ containers
                         ∧ yields labels_to_find c = Some (label, value))
  ∧ (∀ label, is_Some (results !! label) → label ∈ labels_to_find)
  ∧ (∀ label value, results !! label = Some value →
       ∃ c, c ∈ containers ∧ yields labels_to_find c = Some (label, value))
  ∧ (containers = [] → results = ∅).
Proof.
  intros results containers.
  split; [intros label; apply extract_label_value_pairs_is_Some|].
  split; [|split].
  - intros label Hsome.
    apply extract_label_value_pairs_is_Some in Hsome as (c & value & _ & Hy).
    by eapply yields_label.
  - intros label value. apply extract_label_value_pairs_Some.
  - intros Hnone. unfold results, extract_label_value_pairs. fold containers.
    by rewrite Hnone.
Qed.

Lemma extract_label_value_pairs_keys_witness :
  extract_label_value_pairs Fixtures.search_page ["Heating:"; "Floor:"]
    Fixtures.container_class = ∅
  ∧ ∃ c, c ∈ find_all_tag_class "div" Fixtures.container_class Fixtures.listing_page
         ∧ yields ["Heating:"; "Floor:"] c = Some ("Floor:", "4").
Proof.
  destruct (extract_label_value_pairs_keys Fixtures.search_page ["Heating:"; "Floor:"]
              Fixtures.container_class) as (_ & _ & _ & Hnone).
  destruct (extract_label_value_pairs_keys Fixtures.listing_page ["Heating:"; "Floor:"]
              Fixtures.container_class) as (_ & _ & Hvalue & _).
  split; [by apply Hnone|]. apply Hvalue. by vm_compute.
Defined.

(** ** get_listing_details: the fields read from label-value pairs *)

(** X4: when the listing page is fetched and parsed, a field of
    [label_mapping] holds [None] exactly when no container of the page
    yields its label, and otherwise holds the value of the last container
    that yields its label; this is so even when [div_class_mapping] has a
    field of the same name. *)
Theorem get_listing_details_label_field (w : web) (listing_url : string)
    (div_class_mapping label_mapping : gmap string string) (r : response) (soup : node)
    (field label : string) :
  requests_get w listing_url = Ok r →
  raise_for_status r = Ok tt →
  html_parser w (response_text r) = Ok soup →
  label_mapping !! field = Some label →
  let d := get_listing_details w listing_url div_class_mapping label_mapping in
  let labels := (map_to_list label_mapping).*2 in
  let containers := find_all_tag_class "div" "css-t7cajz e15n0fyo1" soup in
  (d !! field = Some None
   ↔ ∀ c value, c ∈ containers → yields labels c ≠ Some (label, value))
  ∧ (∀ before c after value,
       containers = (before ++ c :: after)%list →
       yields labels c = Some (label, value) →
       (∀ c' value', c' ∈ after → yields labels c' ≠ Some (label, value')) →
       d !! field = Some (Some value)).
Proof.
  intros Hget Hstatus Hparse Hfield d labels containers.
  destruct (get_listing_details_try_Ok w listing_url div_class_mapping label_mapping
              r soup Hget Hstatus Hparse) as (d' & _ & Hd & _ & _ & _ & Hlabel).
  fold d in Hd. subst d'. specialize (Hlabel field label Hfield).
  fold labels in Hlabel.
  pose proof (extract_label_value_pairs_is_Some soup labels "css-t7cajz e15n0fyo1"
                label) as Hkeys.
  fold containers in Hkeys. split.
  - rewrite Hlabel. split.
    + intros [= Hnone] c value Hin Hy.
      assert (is_Some (extract_label_value_pairs soup labels "css-t7cajz e15n0fyo1"
                         !! label)) as [v Hv]
        by (apply Hkeys; by exists c, value).
      congruence.
    + intros Hno. f_equal. apply eq_None_not_Some.
      intros (c & value & Hin & Hy)%Hkeys. by eapply Hno.
  - intros before c after value Hsplit Hy Hafter. rewrite Hlabel. f_equal.
    unfold extract_label_value_pairs. fold containers. rewrite Hsplit.
    rewrite foldl_app. simpl. rewrite foldl_label_value_step_skip by done.
    rewrite label_value_step_yields, Hy. apply lookup_insert_eq.
Qed.

Lemma get_listing_details_label_field_witness :
  get_listing_details Fixtures.good_site "https://www.otodom.pl/x"
    {[ "floor" := "css-1o51x5a" ]} {[ "floor" := "Floor:" ]} !! "floor"
  = Some (Some "4").
Proof.
  destruct (get_listing_details_label_field Fixtures.good_site "https://www.otodom.pl/x"
              {[ "floor" := "css-1o51x5a" ]} {[ "floor" := "Floor:" ]}
              {| status_code := 200; response_text := "https://www.otodom.pl/x" |}
              Fixtures.listing_page "floor" "Floor:" eq_refl eq_refl eq_refl)
    as [_ Hlast]; [by vm_compute|].
  apply (Hlast [Fixtures.heating_block; Fixtures.floor_block_3]
               Fixtures.floor_block_4 [Fixtures.lift_block] "4").
  - by vm_compute.
  - by vm_compute.
  - intros c' value' Hin. apply list_elem_of_singleton in Hin as ->. by vm_compute.
Defined.

(** ** scrape_apartments: the pages and the collected URLs *)

Lemma string_app_inj (a x y : string) : a ++ x = a ++ y → x = y.
Proof. induction a as [|c a IH]; simpl; [done|]. intros [= H]. by apply IH. Qed.

Lemma string_app_length (a b : string) :
  String.length (a ++ b) = String.length a + String.length b.
Proof. induction a as [|c a IH]; simpl; [done|]. by rewrite IH. Qed.

Lemma page_url_inj (base_url : string) (p q : nat) :
  1 ≤ p → 1 ≤ q → page_url base_url p = page_url base_url q → p = q.
Proof.
  intros Hp Hq. unfold page_url.
  destruct (Nat.ltb_spec 1 p) as [Hp1|Hp1], (Nat.ltb_spec 1 q) as [Hq1|Hq1].
  - intros H. apply string_app_inj, string_app_inj in H.
    by apply (inj pretty) in H.
  - intros H. apply (f_equal String.length) in H.
    rewrite !string_app_length in H. simpl in H. lia.
  - intros H. apply (f_equal String.length) in H.
    rewrite !string_app_length in H. simpl in H. lia.
  - lia.
Qed.

(** X5: the pages requested are distinct: two different page numbers from 1 on
    never give the same page URL, so no results page is requested twice.
    Page 1 is the base URL itself. *)
Theorem page_urls_distinct (base_url : string) (num_pages : nat) :
  NoDup (map (page_url base_url) (seq 1 num_pages))
  ∧ (∀ p q, 1 ≤ p → 1 ≤ q → page_url base_url p = page_url base_url q → p = q)
  ∧ page_url base_url 1 = base_url.
Proof.
  split; [|split; [apply page_url_inj|done]].
  apply NoDup_fmap_2_strong; [|apply NoDup_seq].
  intros p q Hp Hq. apply elem_of_seq in Hp, Hq. apply page_url_inj; lia.
Qed.

Lemma page_urls_distinct_witness :
  page_url "https://www.otodom.pl/search?limit=72" 2
    ≠ page_url "https://www.otodom.pl/search?limit=72" 3.
Proof.
  intros Heq.
  destruct (page_urls_distinct "https://www.otodom.pl/search?limit=72" 3)
    as (_ & Hinj & _).
  apply Hinj in Heq; lia.
Defined.

Lemma comprehension_elem_of {A B} (f : A → result B) (l : list A) (ys : list B) (y : B) :
  comprehension f l = Ok ys → y ∈ ys → ∃ x, x ∈ l ∧ f x = Ok y.
Proof.
  revert ys. induction l as [|x l IH]; intros ys; simpl.
  - intros [= <-] Hy. by apply not_elem_of_nil in Hy.
  - destruct (f x) as [y0|e] eqn:Hx; simpl; [|done].
    destruct (comprehension f l) as [ys'|e] eqn:Hl; simpl; [|done].
    intros [= <-] Hy. apply elem_of_cons in Hy as [->|Hy].
    + exists x. split; [left|done].
    + destruct (IH ys' eq_refl Hy) as (x' & Hin & Hx'). exists x'.
      split; [by right|done].
Qed.

Lemma get_listings_page_prefix (w : web) (page_url url : string) :
  url ∈ get_listings_page w page_url →
  ∃ href, url = "https://www.otodom.pl/" ++ href.
Proof.
  unfold get_listings_page.
  destruct (get_listings_page_try w page_url) as [urls|e] eqn:Htry.
  - intros Hin. unfold get_listings_page_try in Htry.
    apply bind_Ok in Htry as (r & _ & Htry).
    apply bind_Ok in Htry as (u & _ & Htry).
    apply bind_Ok in Htry as (soup & _ & Htry).
    destruct (comprehension_elem_of _ _ _ _ Htry Hin) as (link & _ & Hlink).
    apply bind_Ok in Hlink as (href & _ & [= <-]). by exists href.
  - intros Hin. by apply not_elem_of_nil in Hin.
Qed.

(** X6: every URL the collector gathers, and so every URL written to the URL
    file, is the site prefix followed by the [href] of an anchor; it is
    never the empty string, whatever the pages hold. *)
Theorem collected_urls_have_prefix (w : web) (base_url : string) (num_pages : nat)
    (url : string) :
  url ∈ unique (collect_urls w base_url num_pages) →
  (∃ href, url = "https://www.otodom.pl/" ++ href) ∧ url ≠ "".
Proof.
  intros Hin. apply elem_of_unique, elem_of_collect_urls in Hin as (page & _ & Hin).
  apply get_listings_page_prefix in Hin as [href ->]. split; [by exists href|done].
Qed.

Lemma collected_urls_have_prefix_witness :
  ∃ href, "https://www.otodom.pl/y" = "https://www.otodom.pl/" ++ href.
Proof.
  apply (collected_urls_have_prefix Fixtures.site "search" 1 "https://www.otodom.pl/y").
  apply elem_of_unique. vm_compute. right. left.
Defined.

(** ** scrape_apartments: de-duplication, continued *)

(** X7: de-duplication never lengthens the list: [total_urls] is at most the
    number of URLs collected, equal to it exactly when no URL was collected
    twice, and zero exactly when nothing was collected. *)
Theorem unique_length (all_urls : list string) :
  length (unique all_urls) ≤ length all_urls
  ∧ (length (unique all_urls) = length all_urls ↔ NoDup all_urls)
  ∧ (unique all_urls = [] ↔ all_urls = []).
Proof.
  assert (unique all_urls ⊆+ all_urls) as Hsub.
  { apply NoDup_submseteq; [apply unique_NoDup|].
    intros url. apply elem_of_unique. }
  split; [by apply submseteq_length|]. split; [split|split].
  - intros Hlen. apply submseteq_length_Permutation in Hsub; [|lia].
    rewrite <-Hsub. apply unique_NoDup.
  - intros Hnd. unfold unique. by rewrite elements_list_to_set.
  - intros Hnil. destruct all_urls as [|url urls]; [done|].
    assert (url ∈ unique (url :: urls)) as Hin by (apply elem_of_unique; left).
    rewrite Hnil in Hin. by apply not_elem_of_nil in Hin.
  - intros ->. done.
Qed.

(** ** scrape_apartments: reading the URL file back *)

Lemma lstrip_newline (url : string) :
  lstrip (url ++ newline)
    = match lstrip url with
      | EmptyString => EmptyString
      | String c s => String c s ++ newline
      end.
Proof.
  induction url as [|c url IH]; [reflexivity|].
  change (String c url ++ newline) with (String c (url ++ newline)).
  cbn [lstrip]. by destruct (isspace c).
Qed.

Lemma strip_newline (url : string) : strip (url ++ newline) = strip url.
Proof.
  unfold strip. rewrite lstrip_newline.
  destruct (lstrip url) as [|c s]; [done|]. apply rstrip_newline.
Qed.

Lemma read_batch_stripped (urls : list string) (urls_processed batch_size : nat) :
  Forall (λ url, has_line_break url = false) urls →
  urls_processed ≤ length urls →
  read_batch (urls_file_text urls) urls_processed batch_size (length urls)
    = Ok (map strip (take batch_size (drop urls_processed urls))).
Proof.
  intros Hurls Hup. unfold read_batch.
  rewrite open_lines_urls_file_text by done.
  rewrite skip_lines_Ok by (rewrite length_map; lia). simpl.
  rewrite take_lines_Ok by (rewrite length_drop, length_map; lia).
  f_equal. rewrite skipn_map, firstn_map, map_map.
  rewrite <-(take_take (drop urls_processed urls)), <-length_drop.
  rewrite (take_ge (drop urls_processed urls) (length (drop urls_processed urls)))
    by done.
  apply map_ext. intros url. apply strip_newline.
Qed.

Lemma rstrip_idem (t : string) : rstrip (rstrip t) = rstrip t.
Proof.
  induction t as [|c t IH]; [done|]. cbn [rstrip].
  destruct (rstrip t) as [|c' r] eqn:Ht.
  - destruct (isspace c) eqn:Hc; [done|]. cbn [rstrip]. by rewrite Hc.
  - change (rstrip (String c (String c' r)) = String c (String c' r)).
    cbn [rstrip]. cbn [rstrip] in IH. by rewrite IH.
Qed.

Lemma rstrip_head (c : ascii) (t : string) :
  isspace c = false → ∃ r, rstrip (String c t) = String c r.
Proof.
  intros Hc. cbn [rstrip]. destruct (rstrip t); rewrite ?Hc; eauto.
Qed.

Lemma lstrip_cases (url : string) :
  lstrip url = "" ∨ ∃ c t, lstrip url = String c t ∧ isspace c = false.
Proof.
  induction url as [|c url IH]; [by left|].
  cbn [lstrip]. destruct (isspace c) eqn:Hc; [done|]. right. eauto.
Qed.

Lemma strip_idem (url : string) : strip (strip url) = strip url.
Proof.
  unfold strip. destruct (lstrip_cases url) as [->|(c & t & -> & Hc)]; [done|].
  destruct (rstrip_head c t Hc) as [r Hr].
  rewrite <-(rstrip_idem (String c t)) at 2. f_equal.
  rewrite Hr. cbn [lstrip]. by rewrite Hc.
Qed.

(** X8: the scheduler does not fetch the URLs as collected but as read back
    from the file: for URLs that hold no line break, a batch is the next
    URLs of the list, each with its surrounding whitespace removed.  A URL
    collected with a trailing space is therefore fetched without it. *)
Theorem batch_urls_are_stripped (urls : list string) (urls_processed batch_size : nat) :
  Forall (λ url, has_line_break url = false) urls →
  urls_processed ≤ length urls →
  ∃ batch_urls,
    read_batch (urls_file_text urls) urls_processed batch_size (length urls)
      = Ok batch_urls
    ∧ batch_urls = map strip (take batch_size (drop urls_processed urls))
    ∧ Forall (λ url, strip url = url) batch_urls.
Proof.
  intros Hurls Hup. eexists. split; [by apply read_batch_stripped|].
  split; [done|]. apply Forall_map, Forall_forall. intros url _.
  apply strip_idem.
Qed.

Lemma batch_urls_are_stripped_witness :
  read_batch (urls_file_text ["https://www.otodom.pl/x "; "https://www.otodom.pl/y"])
             0 1000 2
    = Ok ["https://www.otodom.pl/x"; "https://www.otodom.pl/y"].
Proof.
  destruct (batch_urls_are_stripped
              ["https://www.otodom.pl/x "; "https://www.otodom.pl/y"] 0 1000)
    as (batch_urls & Hread & -> & _).
  - repeat constructor.
  - simpl. lia.
  - exact Hread.
Defined.

Lemma read_batches_lengths (file_text : string) (batch_size total_urls : nat) :
  total_urls ≤ length (open_lines file_text) →
  ∀ batches_left urls_processed,
    urls_processed ≤ total_urls →
    ∃ batches,
      read_batches file_text batch_size total_urls batches_left urls_processed
        = Ok batches
      ∧ length batches = batches_left
      ∧ ∀ j batch_urls, batches !! j = Some batch_urls →
          length batch_urls
            = batch_size `min` (total_urls - (urls_processed + j * batch_size)).
Proof.
  intros Hlines. induction batches_left as [|k IH]; intros up Hup.
  - exists []. by split; [|split].
  - destruct (read_batch_succeeds file_text up batch_size total_urls Hlines Hup)
      as [batch_urls Hread].
    pose proof (read_batch_length _ _ _ _ _ Hread) as Hlen.
    destruct (IH (up + length batch_urls)) as (rest & Hrest & Hk & Hlens); [lia|].
    exists (batch_urls :: rest). cbn [read_batches]. rewrite Hread. simpl bind.
    rewrite Hrest. simpl bind. split; [done|]. split; [simpl; lia|].
    intros [|j] b Hj; simpl in Hj.
    + injection Hj as <-. rewrite Hlen. f_equal. lia.
    + rewrite (Hlens j b Hj), Hlen. simpl. lia.
Qed.

(** X9: reading the URL file never raises [StopIteration], whatever was
    collected (URLs that hold line breaks or blanks included): for
    [num_workers ≥ 1] the scheduler reads exactly [total_batches] batches;
    batch [j] has [min(batch_size, total_urls − j × batch_size)] URLs, so
    every batch but the last has [batch_size] URLs and the last has from 1
    to [batch_size]. *)
Theorem scheduler_batches_sizes (urls : list string) (num_workers : nat) :
  1 ≤ num_workers →
  let total_urls := length urls in
  let batch_size := num_workers * 1000 in
  let total_batches := ceil_div total_urls batch_size in
  ∃ batches,
    scheduler_batches (urls_file_text urls) total_urls num_workers = Ok batches
    ∧ length batches = total_batches
    ∧ ∀ j batch_urls, batches !! j = Some batch_urls →
        length batch_urls = batch_size `min` (total_urls - j * batch_size)
        ∧ 1 ≤ length batch_urls ≤ batch_size
        ∧ (S j < total_batches → length batch_urls = batch_size).
Proof.
  intros Hnw total_urls batch_size total_batches.
  assert (0 < batch_size) as Hbs by (unfold batch_size; lia).
  destruct (read_batches_lengths (urls_file_text urls) batch_size total_urls
              (open_lines_count urls) total_batches 0) as (batches & Hread & Hlen & Hlens);
    [lia|].
  exists batches. split; [|split; [done|]].
  - unfold scheduler_batches, math_ceil_div. fold batch_size.
    destruct (Nat.eqb_spec batch_size 0); [lia|]. done.
  - intros j batch_urls Hj. pose proof (lookup_lt_Some _ _ _ Hj) as Hlt.
    rewrite Hlen in Hlt. rewrite (Hlens j batch_urls Hj). simpl.
    destruct (ceil_div_bounds total_urls batch_size Hbs) as [_ Hlast].
    assert (0 < total_urls) as Hpos.
    { destruct (decide (total_urls = 0)) as [H0|]; [|lia].
      unfold total_batches in Hlt. rewrite H0, ceil_div_0 in Hlt by done. lia. }
    destruct (Hlast Hpos) as [Hlast' _]. fold total_batches in Hlast'.
    split; [done|]. split; [nia|]. intros Hj'. nia.
Qed.

Lemma scheduler_batches_sizes_witness :
  ∃ batches,
    scheduler_batches (urls_file_text ["a"; "b c"; ""]) 3 1 = Ok batches
    ∧ length batches = 1.
Proof.
  destruct (scheduler_batches_sizes ["a"; "b c"; ""] 1) as (batches & Hread & Hlen & _);
    [lia|].
  exists batches. done.
Defined.

(** ** scrape_apartments: chunks of a full batch *)

Lemma ceil_div_mul (a b : nat) : 0 < b → ceil_div (a * b) b = a.
Proof.
  intros Hb. unfold ceil_div.
  rewrite Nat.div_mul, Nat.Div0.mod_mul by lia. simpl. lia.
Qed.

(** X10: when [num_workers] divides the length of the batch, as for every full
    batch of [num_workers × 1000] URLs, there are exactly [num_workers]
    chunks and each has the same number of URLs. *)
Theorem url_chunks_even (batch_urls : list string) (num_workers k : nat) :
  1 ≤ num_workers → 1 ≤ k → length batch_urls = num_workers * k →
  ∃ chunks,
    url_chunks batch_urls num_workers = Ok chunks
    ∧ length chunks = num_workers
    ∧ Forall (λ chunk, length chunk = k) chunks.
Proof.
  intros Hnw Hk Hlen.
  assert (batch_urls ≠ []) as Hne by (intros ->; simpl in Hlen; nia).
  destruct (url_chunks_Ok batch_urls num_workers Hne Hnw) as [_ Hchunks].
  rewrite Hlen, (Nat.mul_comm num_workers k), ceil_div_mul in Hchunks by lia.
  rewrite (Nat.mul_comm k num_workers), ceil_div_mul in Hchunks by lia.
  eexists. split; [exact Hchunks|]. split; [by rewrite length_map, length_seq|].
  apply Forall_map, Forall_forall. intros j Hj. apply elem_of_seq in Hj.
  rewrite length_take, length_drop, Hlen. nia.
Qed.

Lemma url_chunks_even_witness :
  ∃ chunks,
    url_chunks ["a"; "b"; "c"; "d"; "e"; "f"] 3 = Ok chunks
    ∧ length chunks = 3
    ∧ Forall (λ chunk, length chunk = 2) chunks.
Proof. apply (url_chunks_even ["a"; "b"; "c"; "d"; "e"; "f"] 3 2); simpl; lia. Defined.

(** ** The scheduler at its edges *)

Lemma step_init_no_batch (cfg : config) (ev : event) :
  (∀ tb, total_batches cfg = Ok tb → tb = 0) → step cfg ev init = None.
Proof.
  intros Hnone. destruct ev as [|i|i|i timestamp]; simpl; try done.
  destruct (total_batches cfg) as [tb|e]; [|done].
  rewrite (Hnone tb eq_refl). by rewrite bool_decide_false by lia.
Qed.

Lemma run_init_no_batch (cfg : config) (evs : list event) (s : state) :
  (∀ tb, total_batches cfg = Ok tb → tb = 0) →
  run cfg evs init = Some s → evs = [] ∧ s = init.
Proof.
  intros Hnone. destruct evs as [|ev evs]; simpl.
  - by intros [= <-].
  - by rewrite step_init_no_batch.
Qed.

(** X11: with [num_workers = 0] the division of line 138 raises
    [ZeroDivisionError]: no batch is read, no worker is started and no
    event of the run can happen, even when no URL was collected. *)
Theorem zero_workers_raises (cfg : config) (file_text : string)
    (total_urls : nat) (batch_urls : list string) :
  num_workers cfg = 0 →
  total_batches cfg = Raise ZeroDivisionError
  ∧ scheduler_batches file_text total_urls 0 = Raise ZeroDivisionError
  ∧ url_chunks batch_urls 0 = Raise ZeroDivisionError
  ∧ ∀ evs s, run cfg evs init = Some s → evs = [] ∧ s = init.
Proof.
  intros Hnw.
  assert (total_batches cfg = Raise ZeroDivisionError) as Htb.
  { unfold total_batches, batch_size, math_ceil_div. by rewrite Hnw. }
  split; [done|]. split; [done|]. split; [done|].
  intros evs s. apply run_init_no_batch. intros tb. by rewrite Htb.
Qed.

Lemma zero_workers_raises_witness :
  scheduler_batches (urls_file_text ["https://www.otodom.pl/x"]) 1 0
    = Raise ZeroDivisionError.
Proof.
  apply (zero_workers_raises
           (scrape_config Fixtures.good_site "search" ∅ ∅ 1 0)
           (urls_file_text ["https://www.otodom.pl/x"]) 1 []).
  reflexivity.
Defined.

(** X12: when no URL was collected and [num_workers ≥ 1], there is no batch:
    the run is over before it starts, no worker is started, the counters
    stay at 0 and no CSV file is written. *)
Theorem no_urls_no_batches (cfg : config) :
  total_urls cfg = 0 → 1 ≤ num_workers cfg →
  total_batches cfg = Ok 0
  ∧ finished cfg init
  ∧ ∀ evs s, run cfg evs init = Some s → evs = [] ∧ s = init.
Proof.
  intros Htotal Hnw.
  assert (total_batches cfg = Ok 0) as Htb.
  { unfold total_batches, math_ceil_div, batch_size. rewrite Htotal.
    destruct (Nat.eqb_spec (num_workers cfg * 1000) 0); [lia|].
    by rewrite ceil_div_0 by lia. }
  split; [done|]. split; [by split; [|constructor]|].
  intros evs s. apply run_init_no_batch. intros tb. rewrite Htb. by intros [= <-].
Qed.

Lemma no_urls_no_batches_witness : finished Fixtures.dead_run init.
Proof.
  apply (no_urls_no_batches Fixtures.dead_run); [by vm_compute|].
  unfold Fixtures.dead_run. simpl. lia.
Defined.

(** ** The counters along a run *)

Lemma step_monotone (cfg : config) (ev : event) (s s' : state) :
  step cfg ev s = Some s' →
  urls_processed s ≤ urls_processed s'
  ∧ listings_scraped s ≤ listings_scraped s'
  ∧ batch_no s ≤ batch_no s'
  ∧ length (workers s) ≤ length (workers s')
  ∧ dom (output_dir s) ⊆ dom (output_dir s').
Proof.
  intros Hstep. destruct ev as [|i|i|i timestamp]; simpl in Hstep.
  - destruct (total_batches cfg); [|done].
    destruct (_ && _); [|done].
    destruct (read_batch _ _ _ _); [|done].
    destruct (url_chunks _ _); [|done].
    injection Hstep as <-. simpl. rewrite length_app. repeat split; lia || done.
  - destruct (workers s !! i) as [wk|]; [|done]. simpl in Hstep.
    destruct (fetch_one cfg wk); [|done]. injection Hstep as <-. simpl.
    rewrite length_insert. repeat split; lia || done.
  - destruct (workers s !! i) as [wk|]; [|done]. simpl in Hstep.
    destruct (at_pc wk); try done. injection Hstep as <-. simpl.
    rewrite length_insert. repeat split; lia || done.
  - destruct (workers s !! i) as [wk|]; [|done]. simpl in Hstep.
    destruct (at_pc wk); try done. destruct (pending wk); [|done].
    injection Hstep as <-. simpl.
    rewrite length_insert. repeat split; try lia.
    destruct (scraped_listings wk); [done|].
    rewrite dom_insert. apply union_subseteq_r.
Qed.

(** X13: nothing is ever taken back during a run: [urls_processed],
    [listings_scraped] and the batch number never decrease, no worker is
    dropped and no CSV file is removed from the output directory. *)
Theorem run_monotone (cfg : config) (evs : list event) (s s' : state) :
  run cfg evs s = Some s' →
  urls_processed s ≤ urls_processed s'
  ∧ listings_scraped s ≤ listings_scraped s'
  ∧ batch_no s ≤ batch_no s'
  ∧ length (workers s) ≤ length (workers s')
  ∧ dom (output_dir s) ⊆ dom (output_dir s').
Proof.
  revert s. induction evs as [|ev evs IH]; intros s Hrun; simpl in Hrun.
  - injection Hrun as <-. repeat split; lia || done.
  - destruct (step cfg ev s) as [s1|] eqn:Hstep; [|done]. simpl in Hrun.
    apply step_monotone in Hstep as (H1 & H2 & H3 & H4 & H5).
    apply IH in Hrun as (H1' & H2' & H3' & H4' & H5').
    repeat split; try lia. by etrans.
Qed.

Lemma run_monotone_witness :
  ∃ s, run Fixtures.small_run Fixtures.small_schedule init = Some s
       ∧ urls_processed init ≤ urls_processed s
       ∧ listings_scraped init ≤ listings_scraped s.
Proof.
  eexists. split; [by vm_compute|].
  edestruct (run_monotone Fixtures.small_run Fixtures.small_schedule init)
    as (Hurls & Hscraped & _); [by vm_compute|].
  split; [exact Hurls|exact Hscraped].
Defined.

(** X14: in every state a run reaches, [urls_processed] is the batch number
    times [batch_size], capped at [total_urls], and the batch number is at
    most [total_batches]: the scheduler never reads past the URLs and never
    starts a batch too many. *)
Theorem urls_processed_position (cfg : config) (evs : list event) (s : state) :
  run cfg evs init = Some s →
  batch_no s ≤ ceil_div (total_urls cfg) (batch_size cfg)
  ∧ urls_processed s = (batch_no s * batch_size cfg) `min` total_urls cfg.
Proof. intros Hrun. eapply run_position; [apply init_position|exact Hrun]. Qed.

Lemma urls_processed_position_witness :
  ∃ s, run Fixtures.small_run Fixtures.small_schedule init = Some s
       ∧ urls_processed s = (batch_no s * batch_size Fixtures.small_run)
                              `min` total_urls Fixtures.small_run.
Proof.
  eexists. split; [by vm_compute|].
  eapply (urls_processed_position Fixtures.small_run Fixtures.small_schedule).
  by vm_compute.
Defined.

(** ** The pool of workers *)

Lemma sum_running_returned (ws : list worker) :
  forallb has_returned ws = true → sum_list_with running ws = 0.
Proof.
  induction ws as [|wk ws IH]; simpl; [done|].
  intros [Hwk Hws]%andb_prop. unfold running at 1. by rewrite Hwk, IH.
Qed.

Lemma sum_running_spawn (chunks : list (list string)) :
  sum_list_with running (map spawn chunks) = length chunks.
Proof. induction chunks as [|chunk chunks IH]; simpl; [done|]. by rewrite IH. Qed.

Lemma step_running (cfg : config) (ev : event) (s s' : state) :
  sum_list_with running (workers s) ≤ num_workers cfg →
  step cfg ev s = Some s' →
  sum_list_with running (workers s') ≤ num_workers cfg.
Proof.
  intros Hpool Hstep. destruct ev as [|i|i|i timestamp]; simpl in Hstep.
  - destruct (total_batches cfg); [|done].
    destruct (bool_decide _); [|done]. simpl in Hstep.
    destruct (forallb has_returned (workers s)) eqn:Hall; [|done].
    destruct (read_batch _ _ _ _); [|done].
    destruct (url_chunks _ _) as [chunks|] eqn:Hchunks; [|done].
    injection Hstep as <-. simpl.
    rewrite sum_list_with_app, sum_running_returned, sum_running_spawn by done.
    apply url_chunks_length in Hchunks. lia.
  - destruct (workers s !! i) as [wk|] eqn:Hi; [|done]. simpl in Hstep.
    destruct (fetch_one cfg wk) as [wk'|] eqn:Hfetch; [|done].
    injection Hstep as <-. simpl.
    pose proof (sum_list_with_insert running _ i wk wk' Hi) as Hsum.
    apply fetch_one_spec in Hfetch as (url & rest & Hpc & _ & _ & _ & Hd).
    assert (running wk = 1) as Hwk by (unfold running, has_returned; by rewrite Hpc).
    assert (running wk' = 1) as Hwk'.
    { unfold running, has_returned.
      by destruct Hd as [(_ & _ & ->)|(_ & _ & ->)]. }
    lia.
  - destruct (workers s !! i) as [wk|] eqn:Hi; [|done]. simpl in Hstep.
    destruct (at_pc wk) eqn:Hpc; try done. injection Hstep as <-. simpl.
    match goal with |- context [<[i := ?w]> _] => set (wk' := w) end.
    pose proof (sum_list_with_insert running _ i wk wk' Hi) as Hsum.
    assert (running wk = 1) as Hwk by (unfold running, has_returned; by rewrite Hpc).
    assert (running wk' = 1) as Hwk' by done.
    lia.
  - destruct (workers s !! i) as [wk|] eqn:Hi; [|done]. simpl in Hstep.
    destruct (at_pc wk) eqn:Hpc; try done. destruct (pending wk); [|done].
    injection Hstep as <-. simpl.
    match goal with |- context [<[i := ?w]> _] => set (wk' := w) end.
    pose proof (sum_list_with_insert running _ i wk wk' Hi) as Hsum.
    assert (running wk' = 0) as Hwk' by done.
    lia.
Qed.

(** X15: at no point of a run are more than [num_workers] calls of
    [process_urls] under way: a batch is cut into at most [num_workers]
    chunks and a batch starts only when every worker of the batch before
    has returned, so the pool of [num_workers] threads never has a chunk
    waiting for a free thread. *)
Theorem running_workers_bounded (cfg : config) (evs : list event) (s : state) :
  run cfg evs init = Some s →
  sum_list_with running (workers s) ≤ num_workers cfg.
Proof.
  assert (∀ s0, sum_list_with running (workers s0) ≤ num_workers cfg →
                run cfg evs s0 = Some s →
                sum_list_with running (workers s) ≤ num_workers cfg) as Hgen.
  { revert s. induction evs as [|ev evs IH]; intros s s0 Hpool Hrun; simpl in Hrun.
    - by injection Hrun as <-.
    - destruct (step cfg ev s0) as [s1|] eqn:Hstep; [|done]. simpl in Hrun.
      eapply IH; [|exact Hrun]. by eapply step_running. }
  apply Hgen. simpl. lia.
Qed.

Lemma running_workers_bounded_witness :
  ∃ s, run Fixtures.good_run [NextBatch; Fetch 0] init = Some s
       ∧ sum_list_with running (workers s) = 2
       ∧ sum_list_with running (workers s) ≤ 2.
Proof.
  eexists. split; [by vm_compute|]. split; [by vm_compute|].
  apply (running_workers_bounded Fixtures.good_run [NextBatch; Fetch 0]).
  by vm_compute.
Defined.

(** ** Every URL goes to one worker *)

Lemma url_chunk_insert (ws : list worker) (i : nat) (wk wk' : worker) :
  ws !! i = Some wk → url_chunk wk' = url_chunk wk →
  map url_chunk (<[i := wk']> ws) = map url_chunk ws.
Proof.
  intros Hi Hchunk.
  change (url_chunk <$> <[i := wk']> ws = url_chunk <$> ws).
  rewrite list_fmap_insert, Hchunk. apply list_insert_id.
  by rewrite list_lookup_fmap, Hi.
Qed.

Lemma url_chunk_spawn (chunks : list (list string)) :
  map url_chunk (map spawn chunks) = chunks.
Proof. induction chunks as [|chunk chunks IH]; simpl; [done|]. by rewrite IH. Qed.

Lemma step_chunks (cfg : config) (urls : list string) (ev : event) (s s' : state) :
  urls_file cfg = urls_file_text urls →
  total_urls cfg = length urls →
  Forall (λ url, has_line_break url = false) urls →
  urls_processed s ≤ length urls
  ∧ concat (map url_chunk (workers s)) = map strip (take (urls_processed s) urls) →
  step cfg ev s = Some s' →
  urls_processed s' ≤ length urls
  ∧ concat (map url_chunk (workers s')) = map strip (take (urls_processed s') urls).
Proof.
  intros Hfile Htotal Hurls [Hup Hchunks] Hstep.
  destruct ev as [|i|i|i timestamp]; simpl in Hstep.
  - destruct (total_batches cfg); [|done].
    destruct (_ && _); [|done].
    rewrite Hfile, Htotal, read_batch_stripped in Hstep by done.
    destruct (url_chunks _ _) as [chunks|] eqn:Hcut; [|done].
    injection Hstep as <-. simpl.
    apply url_chunks_concat in Hcut.
    rewrite length_map, length_take, length_drop.
    split; [lia|].
    rewrite map_app, concat_app, url_chunk_spawn, Hcut, Hchunks, <-map_app.
    f_equal. rewrite take_take_drop.
    destruct (decide (batch_size cfg ≤ length urls - urls_processed s)).
    + f_equal. lia.
    + rewrite !take_ge by lia. done.
  - destruct (workers s !! i) as [wk|] eqn:Hi; [|done]. simpl in Hstep.
    destruct (fetch_one cfg wk) as [wk'|] eqn:Hfetch; [|done].
    injection Hstep as <-. simpl.
    apply fetch_one_spec in Hfetch as (url & rest & _ & _ & Hsame & _).
    by rewrite (url_chunk_insert _ _ wk wk').
  - destruct (workers s !! i) as [wk|] eqn:Hi; [|done]. simpl in Hstep.
    destruct (at_pc wk); try done. injection Hstep as <-. simpl.
    by rewrite (url_chunk_insert _ _ wk).
  - destruct (workers s !! i) as [wk|] eqn:Hi; [|done]. simpl in Hstep.
    destruct (at_pc wk); try done. destruct (pending wk); [|done].
    injection Hstep as <-. simpl.
    by rewrite (url_chunk_insert _ _ wk).
Qed.

Lemma run_chunks (cfg : config) (urls : list string) (evs : list event) (s : state) :
  urls_file cfg = urls_file_text urls →
  total_urls cfg = length urls →
  Forall (λ url, has_line_break url = false) urls →
  run cfg evs init = Some s →
  concat (map url_chunk (workers s)) = map strip (take (urls_processed s) urls).
Proof.
  intros Hfile Htotal Hurls.
  assert (∀ s0, urls_processed s0 ≤ length urls
                ∧ concat (map url_chunk (workers s0))
                  = map strip (take (urls_processed s0) urls) →
                run cfg evs s0 = Some s →
                urls_processed s ≤ length urls
                ∧ concat (map url_chunk (workers s))
                  = map strip (take (urls_processed s) urls)) as Hgen.
  { revert s. induction evs as [|ev evs IH]; intros s s0 Hinv Hrun; simpl in Hrun.
    - by injection Hrun as <-.
    - destruct (step cfg ev s0) as [s1|] eqn:Hstep; [|done]. simpl in Hrun.
      eapply IH; [|exact Hrun]. by eapply step_chunks. }
  intros Hrun. apply (Hgen init); [|done]. simpl. split; [lia|done].
Qed.

Lemma finished_urls_processed (cfg : config) (evs : list event) (s : state) :
  run cfg evs init = Some s → finished cfg s →
  urls_processed s = total_urls cfg.
Proof.
  intros Hrun [Htb _].
  destruct (run_position cfg evs init s (init_position cfg) Hrun) as [_ Hup].
  unfold total_batches, math_ceil_div in Htb.
  destruct (Nat.eqb_spec (batch_size cfg) 0) as [|Hbs]; [done|].
  injection Htb as Htb.
  destruct (ceil_div_bounds (total_urls cfg) (batch_size cfg)) as [Hcover _]; [lia|].
  rewrite Htb in Hcover. lia.
Qed.

(** X16: for URLs that hold no line break, the chunks handed to the workers,
    taken in the order the workers were started, are at every point of the
    run the first [urls_processed] URLs of the file, each trimmed; when the
    run is over they are all the URLs of the file, so that every URL was
    handed to one worker and none was left out or handed out twice. *)
Theorem every_url_in_one_chunk (cfg : config) (urls : list string)
    (evs : list event) (s : state) :
  urls_file cfg = urls_file_text urls →
  total_urls cfg = length urls →
  Forall (λ url, has_line_break url = false) urls →
  run cfg evs init = Some s →
  concat (map url_chunk (workers s)) = map strip (take (urls_processed s) urls)
  ∧ (finished cfg s → concat (map url_chunk (workers s)) = map strip urls).
Proof.
  intros Hfile Htotal Hurls Hrun.
  pose proof (run_chunks cfg urls evs s Hfile Htotal Hurls Hrun) as Hchunks.
  split; [done|]. intros Hfin. rewrite Hchunks.
  rewrite (finished_urls_processed cfg evs s Hrun Hfin), Htotal.
  by rewrite take_ge.
Qed.

Lemma every_url_in_one_chunk_witness :
  ∃ s, run Fixtures.small_run Fixtures.small_schedule init = Some s
       ∧ concat (map url_chunk (workers s))
         = ["https://www.otodom.pl/y"; "https://www.otodom.pl/x"].
Proof.
  eexists. split; [by vm_compute|].
  edestruct (every_url_in_one_chunk Fixtures.small_run
               ["https://www.otodom.pl/y"; "https://www.otodom.pl/x"]
               Fixtures.small_schedule) as [_ Hall].
  - by vm_compute.
  - by vm_compute.
  - repeat constructor.
  - by vm_compute.
  - rewrite Hall; [done|]. split; [by vm_compute|repeat constructor].
Defined.

(** ** The count at the end of a run *)

Lemma records_of_app (cfg : config) (a b : list string) :
  records_of cfg (a ++ b) = (records_of cfg a ++ records_of cfg b)%list.
Proof. unfold records_of. by rewrite map_app, filter_app. Qed.

Lemma sum_records_of (cfg : config) (ws : list worker) :
  Forall (λ wk, scraped_listings wk = records_of cfg (url_chunk wk)) ws →
  sum_list_with (λ wk, length (scraped_listings wk)) ws
    = length (records_of cfg (concat (map url_chunk ws))).
Proof.
  induction 1 as [|wk ws Hwk _ IH]; [done|].
  simpl. rewrite records_of_app, length_app, IH, Hwk. done.
Qed.

Lemma finished_records (cfg : config) (evs : list event) (s : state) :
  run cfg evs init = Some s → finished cfg s →
  listings_scraped s
    = sum_list_with (λ wk, length (scraped_listings wk)) (workers s)
  ∧ Forall (λ wk, scraped_listings wk = records_of cfg (url_chunk wk)) (workers s).
Proof.
  intros Hrun [_ Hreturned].
  destruct (run_invariant cfg evs init s (init_invariant cfg) Hrun)
    as (Hcount & _ & _ & Hworkers).
  rewrite sum_counting_returned in Hcount by done. split; [lia|].
  apply Forall_forall. intros wk Hwk.
  pose proof (proj1 (Forall_forall _ _) Hreturned wk Hwk) as Hpc.
  destruct (proj1 (Forall_forall _ _) Hworkers wk Hwk)
    as (done_urls & Hsplit & Hrec & Hend).
  rewrite (Hend Hpc), (right_id_L [] (++)) in Hsplit. by subst done_urls.
Qed.

(** X17: for URLs that hold no line break, the count a finished run reports is
    the number of URLs of the file, as read back, whose fetch gives a
    record that is not empty.  It does not depend on the order in which
    the workers ran, on the number of workers or on the batches. *)
Theorem final_count_is_number_of_successes (cfg : config) (urls : list string)
    (evs : list event) (s : state) :
  urls_file cfg = urls_file_text urls →
  total_urls cfg = length urls →
  Forall (λ url, has_line_break url = false) urls →
  run cfg evs init = Some s → finished cfg s →
  listings_scraped s = length (records_of cfg (map strip urls))
  ∧ concat (map scraped_listings (workers s)) = records_of cfg (map strip urls).
Proof.
  intros Hfile Htotal Hurls Hrun Hfin.
  destruct (finished_records cfg evs s Hrun Hfin) as [Hcount Hrec].
  pose proof (run_chunks cfg urls evs s Hfile Htotal Hurls Hrun) as Hchunks.
  rewrite (finished_urls_processed cfg evs s Hrun Hfin), Htotal, take_ge in Hchunks
    by done.
  split.
  - by rewrite Hcount, (sum_records_of cfg), Hchunks.
  - rewrite <-Hchunks. clear -Hrec.
    induction Hrec as [|wk ws Hwk _ IH]; [done|].
    simpl. by rewrite records_of_app, IH, Hwk.
Qed.

Lemma final_count_is_number_of_successes_witness :
  ∃ s, run Fixtures.small_run Fixtures.small_schedule init = Some s
       ∧ listings_scraped s
         = length (records_of Fixtures.small_run
                     (map strip ["https://www.otodom.pl/y"; "https://www.otodom.pl/x"])).
Proof.
  eexists. split; [by vm_compute|].
  eapply (final_count_is_number_of_successes Fixtures.small_run
            ["https://www.otodom.pl/y"; "https://www.otodom.pl/x"]
            Fixtures.small_schedule).
  - by vm_compute.
  - by vm_compute.
  - repeat constructor.
  - by vm_compute.
  - split; [by vm_compute|repeat constructor].
Defined.

(** ** The CSV files *)

(** X18: a worker reaches the save of lines 178-182 only when its loop has
    gone through its whole chunk, and the list it builds the data frame
    from is the record list of that chunk: the non-empty records of the
    chunk's URLs, in the order of the chunk, no more of them than the chunk
    has URLs.  With no record the worker leaves the output directory as it
    is; with at least one, the files of the directory are those it had and
    the file named after the batch and the worker's timestamp.  Nothing is
    said of what a file holds while it is written: [to_csv] takes no
    lock. *)
Theorem rows_saved_are_the_whole_chunk (cfg : config) (evs : list event)
    (s s' : state) (i : nat) (timestamp : string) :
  run cfg evs init = Some s →
  step cfg (Save i timestamp) s = Some s' →
  ∃ wk,
    workers s !! i = Some wk
    ∧ at_pc wk = AtFetch
    ∧ pending wk = []
    ∧ scraped_listings wk = records_of cfg (url_chunk wk)
    ∧ Forall (λ d, d ≠ ∅) (scraped_listings wk)
    ∧ length (scraped_listings wk) ≤ length (url_chunk wk)
    ∧ (scraped_listings wk = [] → output_dir s' = output_dir s)
    ∧ (scraped_listings wk ≠ [] →
         dom (output_dir s')
         = {[ output_file (batch_no s) timestamp ]} ∪ dom (output_dir s)).
Proof.
  intros Hrun Hstep.
  destruct (run_invariant cfg evs init s (init_invariant cfg) Hrun)
    as (_ & _ & _ & Hworkers).
  simpl in Hstep.
  destruct (workers s !! i) as [wk|] eqn:Hi; [|done]. simpl in Hstep.
  destruct (at_pc wk) eqn:Hpc; try done.
  destruct (pending wk) eqn:Hpending; [|done].
  injection Hstep as <-. simpl.
  destruct (Forall_lookup_1 _ _ _ _ Hworkers Hi) as (done_urls & Hsplit & Hrec & _).
  rewrite Hpending, (right_id_L [] (++)) in Hsplit. subst done_urls.
  exists wk. split; [done|]. split; [done|]. split; [done|]. split; [done|].
  split; [|split; [|split]].
  - rewrite Hrec. unfold records_of. apply Forall_forall.
    intros d Hd. by apply list_elem_of_filter in Hd as [Hd _].
  - rewrite Hrec. unfold records_of.
    etrans; [apply length_filter|]. by rewrite length_map.
  - by intros ->.
  - intros Hne. destruct (scraped_listings wk); [done|]. by rewrite dom_insert_L.
Qed.

Lemma rows_saved_are_the_whole_chunk_witness :
  ∃ s s',
    run Fixtures.good_run [NextBatch; Fetch 0; Fetch 1; Count 0; Count 1] init = Some s
    ∧ step Fixtures.good_run (Save 1 "20250101_120000") s = Some s'
    ∧ ∃ wk,
        workers s !! 1 = Some wk
        ∧ at_pc wk = AtFetch
        ∧ pending wk = []
        ∧ scraped_listings wk = records_of Fixtures.good_run (url_chunk wk)
        ∧ Forall (λ d, d ≠ ∅) (scraped_listings wk)
        ∧ length (scraped_listings wk) ≤ length (url_chunk wk)
        ∧ (scraped_listings wk = [] → output_dir s' = output_dir s)
        ∧ (scraped_listings wk ≠ [] →
             dom (output_dir s')
             = {[ output_file (batch_no s) "20250101_120000" ]} ∪ dom (output_dir s)).
Proof.
  eexists _, _. split; [by vm_compute|]. split; [by vm_compute|].
  refine (rows_saved_are_the_whole_chunk Fixtures.good_run
            [NextBatch; Fetch 0; Fetch 1; Count 0; Count 1] _ _ 1 "20250101_120000" _ _).
  - by vm_compute.
  - by vm_compute.
Defined.

Lemma sum_saved_spawn (chunks : list (list string)) :
  sum_list_with saved (map spawn chunks) = 0.
Proof. induction chunks as [|chunk chunks IH]; simpl; [done|]. by rewrite IH. Qed.

Lemma step_file_count (cfg : config) (ev : event) (s s' : state) :
  size (output_dir s) ≤ sum_list_with saved (workers s) →
  step cfg ev s = Some s' →
  size (output_dir s') ≤ sum_list_with saved (workers s').
Proof.
  intros Hsize Hstep. destruct ev as [|i|i|i timestamp]; simpl in Hstep.
  - destruct (total_batches cfg); [|done].
    destruct (_ && _); [|done].
    destruct (read_batch _ _ _ _); [|done].
    destruct (url_chunks _ _); [|done].
    injection Hstep as <-. simpl.
    rewrite sum_list_with_app, sum_saved_spawn. lia.
  - destruct (workers s !! i) as [wk|] eqn:Hi; [|done]. simpl in Hstep.
    destruct (fetch_one cfg wk) as [wk'|] eqn:Hfetch; [|done].
    injection Hstep as <-. simpl.
    pose proof (sum_list_with_insert saved _ i wk wk' Hi) as Hsum.
    apply fetch_one_spec in Hfetch as (url & rest & Hpc & _ & _ & _ & Hd).
    assert (saved wk = 0) as Hwk by (unfold saved; by rewrite Hpc).
    assert (saved wk' = 0) as Hwk'.
    { unfold saved. by destruct Hd as [(_ & _ & ->)|(_ & _ & ->)]. }
    lia.
  - destruct (workers s !! i) as [wk|] eqn:Hi; [|done]. simpl in Hstep.
    destruct (at_pc wk) eqn:Hpc; try done. injection Hstep as <-. simpl.
    match goal with |- context [<[i := ?w]> _] => set (wk' := w) end.
    pose proof (sum_list_with_insert saved _ i wk wk' Hi) as Hsum.
    assert (saved wk = 0) as Hwk by (unfold saved; by rewrite Hpc).
    assert (saved wk' = 0) as Hwk' by done.
    lia.
  - destruct (workers s !! i) as [wk|] eqn:Hi; [|done]. simpl in Hstep.
    destruct (at_pc wk) eqn:Hpc; try done. destruct (pending wk); [|done].
    injection Hstep as <-. simpl.
    match goal with |- context [<[i := ?w]> _] => set (wk' := w) end.
    pose proof (sum_list_with_insert saved _ i wk wk' Hi) as Hsum.
    assert (saved wk = 0) as Hwk by (unfold saved; by rewrite Hpc).
    destruct (scraped_listings wk) as [|d ds] eqn:Hscraped.
    + assert (saved wk' = 0) as Hwk' by done.
      lia.
    + assert (saved wk' = 1) as Hwk' by done.
      pose proof (map_size_insert (output_file (batch_no s) timestamp) (d :: ds)
                    (output_dir s)) as Hins.
      destruct (output_dir s !! output_file (batch_no s) timestamp);
        unfold id in Hins; lia.
Qed.

(** X19: the output directory never has more CSV files than there are workers
    that have returned with at least one record; a worker that found no
    record adds none. *)
Theorem csv_files_at_most_one_per_worker (cfg : config) (evs : list event) (s : state) :
  run cfg evs init = Some s →
  size (output_dir s) ≤ sum_list_with saved (workers s)
  ∧ sum_list_with saved (workers s) ≤ length (workers s).
Proof.
  intros Hrun. split.
  - assert (∀ s0, size (output_dir s0) ≤ sum_list_with saved (workers s0) →
                  run cfg evs s0 = Some s →
                  size (output_dir s) ≤ sum_list_with saved (workers s)) as Hgen.
    { clear Hrun. revert s.
      induction evs as [|ev evs IH]; intros s s0 Hinv Hrun; simpl in Hrun.
      - by injection Hrun as <-.
      - destruct (step cfg ev s0) as [s1|] eqn:Hstep; [|done]. simpl in Hrun.
        eapply IH; [|exact Hrun]. by eapply step_file_count. }
    apply (Hgen init); [|done]. simpl. by rewrite map_size_empty.
  - clear. induction (workers s) as [|wk ws IH]; simpl; [done|].
    assert (saved wk ≤ 1); [|lia].
    unfold saved. destruct (at_pc wk), (scraped_listings wk); lia.
Qed.

Lemma csv_files_at_most_one_per_worker_witness :
  ∃ s, run Fixtures.small_run Fixtures.small_schedule init = Some s
       ∧ size (output_dir s) = 1
       ∧ size (output_dir s) ≤ sum_list_with saved (workers s).
Proof.
  eexists. split; [by vm_compute|]. split; [by vm_compute|].
  refine (proj1 (csv_files_at_most_one_per_worker
                   Fixtures.small_run Fixtures.small_schedule _ _)).
  by vm_compute.
Defined.

Lemma string_app_inj_length (a b x y : string) :
  a ++ x = b ++ y → String.length x = String.length y → a = b ∧ x = y.
Proof.
  revert b. induction a as [|c a IH]; intros [|c' b] Heq Hlen.
  - done.
  - apply (f_equal String.length) in Heq.
    rewrite !string_app_length in Heq. simpl in Heq. lia.
  - apply (f_equal String.length) in Heq.
    rewrite !string_app_length in Heq. simpl in Heq. lia.
  - injection Heq as -> Heq. destruct (IH b Heq Hlen) as [-> ->]. done.
Qed.

(** X20: two CSV files get the same name only when they are named for the same
    batch and the same timestamp, the timestamps being of one length as
    [strftime('%Y%m%d_%H%M%S')] gives them: files of different batches
    never collide, and files of one batch collide exactly when their
    workers read the same second. *)
Theorem output_file_inj (batch_no batch_no' : nat) (timestamp timestamp' : string) :
  String.length timestamp = String.length timestamp' →
  output_file batch_no timestamp = output_file batch_no' timestamp' →
  batch_no = batch_no' ∧ timestamp = timestamp'.
Proof.
  intros Hlen Heq. unfold output_file in Heq.
  apply string_app_inj in Heq.
  apply string_app_inj_length in Heq as [Hno Heq].
  - apply (inj pretty) in Hno. split; [done|].
    apply string_app_inj in Heq.
    by apply string_app_inj_length in Heq as [-> _].
  - by rewrite !string_app_length, Hlen.
Qed.

Lemma output_file_inj_witness :
  output_file 1 "20250101_120000" ≠ output_file 2 "20250101_120000".
Proof.
  intros Heq. apply output_file_inj in Heq as [Hno _]; [lia|done].
Defined.

(** ** The rows of the CSV files *)

Lemma get_listing_details_nonempty (w : web) (listing_url : string)
    (div_class_mapping label_mapping : gmap string string) :
  get_listing_details w listing_url div_class_mapping label_mapping ≠ ∅ →
  ∃ r soup, requests_get w listing_url = Ok r
            ∧ raise_for_status r = Ok tt
            ∧ html_parser w (response_text r) = Ok soup.
Proof.
  unfold get_listing_details.
  destruct (get_listing_details_try w listing_url div_class_mapping label_mapping)
    as [d|e] eqn:Htry; [|done].
  intros _. unfold get_listing_details_try in Htry.
  apply bind_Ok in Htry as (r & Hget & Htry).
  apply bind_Ok in Htry as ([] & Hstatus & Htry).
  apply bind_Ok in Htry as (soup & Hparse & _). eauto.
Qed.

(** X21: every record a worker holds, and so every row of every CSV file, was
    read from one URL of that worker's chunk; all of them have the same
    fields, [url] and the fields of the two mappings, so the rows of a file
    never differ in their columns; and when no mapping has a field named
    [url], the [url] field of a row is the URL it was read from. *)
Theorem rows_have_the_same_fields (cfg : config) (evs : list event) (s : state)
    (i : nat) (wk : worker) (d : details) :
  run cfg evs init = Some s →
  workers s !! i = Some wk →
  d ∈ scraped_listings wk →
  dom d = {["url"]} ∪ dom (div_class_mapping cfg) ∪ dom (label_mapping cfg)
  ∧ ∃ url, url ∈ url_chunk wk
           ∧ d = get_listing_details (the_web cfg) url
                   (div_class_mapping cfg) (label_mapping cfg)
           ∧ ("url" ∉ dom (div_class_mapping cfg) →
              "url" ∉ dom (label_mapping cfg) →
              d !! "url" = Some (Some url)).
Proof.
  intros Hrun Hi Hd.
  destruct (run_invariant cfg evs init s (init_invariant cfg) Hrun)
    as (_ & _ & _ & Hworkers).
  destruct (Forall_lookup_1 _ _ _ _ Hworkers Hi) as (done_urls & Hsplit & Hrec & _).
  rewrite Hrec in Hd. unfold records_of in Hd.
  apply list_elem_of_filter in Hd as [Hne Hd].
  apply list_elem_of_In, in_map_iff in Hd as (url & <- & Hurl).
  apply list_elem_of_In in Hurl.
  destruct (get_listing_details_nonempty _ _ _ _ Hne) as (r & soup & Hget & Hstatus & Hparse).
  destruct (get_listing_details_try_Ok (the_web cfg) url (div_class_mapping cfg)
              (label_mapping cfg) r soup Hget Hstatus Hparse)
    as (d' & _ & <- & Hdom & Hfield & _).
  split; [done|]. exists url. split; [|done].
  rewrite Hsplit. apply elem_of_app. by left.
Qed.

Lemma rows_have_the_same_fields_witness :
  ∃ s wk d,
    run Fixtures.good_run Fixtures.next_second_schedule init = Some s
    ∧ workers s !! 1 = Some wk
    ∧ scraped_listings wk = [d]
    ∧ dom d = {["url"]} ∪ dom (div_class_mapping Fixtures.good_run)
                ∪ dom (label_mapping Fixtures.good_run).
Proof.
  eexists _, _, _. split; [by vm_compute|]. split; [by vm_compute|].
  split; [by vm_compute|].
  refine (proj1 (rows_have_the_same_fields Fixtures.good_run
                   Fixtures.next_second_schedule _ 1 _ _ _ _ _)).
  - by vm_compute.
  - by vm_compute.
  - vm_compute. left.
Defined.

(** ** The mappings of the main block *)

(** X22: with the selectors of [DIV_CLASS_MAPPING] and the fifteen fields of
    [LABEL_MAPPING], whatever its labels, a listing page that is fetched
    and parsed gives a record of twenty fields; its [url] is the URL of the
    listing and each of [title], [price], [address] and [m2] is the trimmed
    text of the first element of its selector class, or [None]. *)
Theorem main_block_record (w : web) (listing_url : string)
    (label_mapping : gmap string string) (r : response) (soup : node) :
  dom label_mapping = LABEL_FIELDS →
  requests_get w listing_url = Ok r →
  raise_for_status r = Ok tt →
  html_parser w (response_text r) = Ok soup →
  let d := get_listing_details w listing_url DIV_CLASS_MAPPING label_mapping in
  size (dom d) = 20
  ∧ d !! "url" = Some (Some listing_url)
  ∧ ∀ field selector,
      DIV_CLASS_MAPPING !! field = Some selector →
      d !! field = Some ((λ element, strip (text element)) <$> find_class selector soup).
Proof.
  intros Hlabels Hget Hstatus Hparse d.
  destruct (get_listing_details_try_Ok w listing_url DIV_CLASS_MAPPING label_mapping
              r soup Hget Hstatus Hparse) as (d' & _ & Hd & Hdom & Hurl & Hdirect & _).
  fold d in Hd. subst d'. rewrite Hlabels in Hdom, Hurl, Hdirect.
  assert (dom DIV_CLASS_MAPPING = {[ "title"; "price"; "address"; "m2" ]} :> gset string)
    as Hdiv by (by vm_compute).
  split; [|split].
  - rewrite Hdom. by vm_compute.
  - apply Hurl.
    + apply not_elem_of_dom. by vm_compute.
    + apply (bool_decide_eq_false_1 ("url" ∈ LABEL_FIELDS)). by vm_compute.
  - intros field selector Hfield. apply Hdirect; [done|].
    apply elem_of_dom_2 in Hfield. rewrite Hdiv in Hfield.
    rewrite !elem_of_union, !elem_of_singleton in Hfield.
    destruct Hfield as [[[->| ->]| ->]| ->];
      apply (bool_decide_eq_false_1 (_ ∈ LABEL_FIELDS)); by vm_compute.
Qed.

Lemma main_block_record_witness :
  get_listing_details Fixtures.good_site "https://www.otodom.pl/x"
    DIV_CLASS_MAPPING Fixtures.sample_labels !! "url"
  = Some (Some "https://www.otodom.pl/x").
Proof.
  assert (dom Fixtures.sample_labels = LABEL_FIELDS) as Hlabels.
  { vm_compute. reflexivity. }
  exact (proj1 (proj2 (main_block_record Fixtures.good_site "https://www.otodom.pl/x"
                         Fixtures.sample_labels
                         {| status_code := 200;
                            response_text := "https://www.otodom.pl/x" |}
                         Fixtures.listing_page Hlabels eq_refl eq_refl eq_refl))).
Defined.
